(** * Atomic scenario behaviours

    A shallow embedding of [ScenarioManager/atomic_scenario_behavior.py]:
    the six condition nodes and the three action nodes that a py_trees
    composite ticks once per simulation step.

    Numbers.  Python floats are idealised as rationals ([Q]) with exact
    arithmetic; rounding, infinities and NaN are outside this model.
    [math.sqrt] is an external function: the definitions take it as a
    parameter, and the general theorems hold for every implementation of
    it.  Concrete runs use [Qsqrt], which is exact on squares of
    rationals.  A float division by zero raises [ZeroDivisionError]; the
    evaluation monad [Eval] records that outcome, and the divisor of every
    division that is executed.  The two time-to-arrival computations, the
    only places where the code divides, are given a second time in module
    [Binary64], on IEEE 754 binary64 numbers as Python evaluates them, so
    that what a division can produce (an error, an infinity, a NaN) can be
    stated.

    Objects.  [carla.VehicleControl] instances live in a store indexed by
    references; an action node holds the reference of the object it built in
    [__init__].  A vehicle is referred to by its actor id; the world maps
    ids to what the simulator currently reports for the actor and to the
    commands the actor has received. *)

From Stdlib Require Import QArith ZArith Lqa Lia List Bool Floats.
From stdpp Require Import base functions option list fin_maps gmap.

Local Open Scope Q_scope.
Set Warnings "-inexact-float".

(* ------------------------------------------------------------------ *)
(** ** Numbers *)

(** Python's [x < y] and [x > y] on numbers. *)
Definition Qltb (x y : Q) : bool := negb (Qle_bool y x).
Definition Qgtb (x y : Q) : bool := Qltb y x.

(** An implementation of [math.sqrt] on rationals: the integer square roots
    of the numerator and of the denominator of the reduced fraction.  It is
    exact on every square of a rational. *)
Definition Qsqrt (q : Q) : Q :=
  let r := Qred q in Z.sqrt (Qnum r) # Pos.sqrt (Qden r).

(** Evaluation with the divisions that were executed (oldest first) and
    the outcome: [None] stands for a raised [ZeroDivisionError]. *)
Definition Eval (A : Type) : Type := (list Q * option A)%type.

Definition ret {A} (a : A) : Eval A := ([], Some a).

Definition bind {A B} (m : Eval A) (k : A -> Eval B) : Eval B :=
  match m with
  | (ds, Some a) => let (ds', r) := k a in (ds ++ ds', r)
  | (ds, None) => (ds, None)
  end.

Notation "x <~ m ; k" := (bind m (fun x => k))
  (at level 20, m at level 100, k at level 200, only parsing).

(** Python's [a / b] on floats, with the exact quotient where binary64
    rounds it ([Binary64.py_div] is the rounded division). *)
Definition py_div (a b : Q) : Eval Q :=
  ([b], if Qeq_bool b 0 then None else Some (a / b)).

Definition outcome {A} (m : Eval A) : option A := snd m.

(* ------------------------------------------------------------------ *)
(** ** The tick status and the simulator's objects *)

(** [py_trees.common.Status] *)
Inductive Status : Set := INVALID | RUNNING | SUCCESS | FAILURE.

(** [carla.Location] and [carla.Vector3D] *)
Record Location : Set := mkLocation { loc_x : Q; loc_y : Q; loc_z : Q }.
Record Vector3D : Set := mkVector3D { vec_x : Q; vec_y : Q; vec_z : Q }.

(** [carla.VehicleControl] and the value its constructor returns. *)
Record VehicleControl : Set := mkVehicleControl {
  throttle : Q;
  steer : Q;
  brake : Q;
  hand_brake : bool;
  reverse : bool
}.

Definition VehicleControl_new : VehicleControl :=
  mkVehicleControl 0.0 0.0 0.0 false false.

(** [control.throttle = q] and [control.brake = q] *)
Definition set_throttle (q : Q) (c : VehicleControl) : VehicleControl :=
  mkVehicleControl q (steer c) (brake c) (hand_brake c) (reverse c).
Definition set_brake (q : Q) (c : VehicleControl) : VehicleControl :=
  mkVehicleControl (throttle c) (steer c) q (hand_brake c) (reverse c).

Abbreviation ref := nat.
Abbreviation actor_id := nat.

(** What the simulator holds for one actor: the values [get_location()] and
    [get_velocity()] return now, and every command received through
    [apply_control], newest first, each with the reference of the object
    that was passed and the value it had at the call. *)
Record Vehicle : Set := mkVehicle {
  get_location : Location;
  get_velocity : Vector3D;
  received : list (ref * VehicleControl)
}.

Record World : Type := mkWorld {
  actors : actor_id -> Vehicle;
  objects : gmap ref VehicleControl
}.

(** The actuation an actor is currently commanded: its latest command, the
    neutral one when it never received any. *)
Definition commanded (v : Vehicle) : VehicleControl :=
  match received v with
  | (_, c) :: _ => c
  | [] => VehicleControl_new
  end.

(** The simulator moves an actor between two ticks. *)
Definition move (a : actor_id) (l : Location) (v : Vector3D) (w : World) : World :=
  mkWorld (<[a := mkVehicle l v (received (actors w a))]> (actors w)) (objects w).

(** [control = carla.VehicleControl()]: a new object in the store. *)
Definition new_VehicleControl (w : World) : ref * World :=
  let r := fresh (dom (objects w)) in
  (r, mkWorld (actors w) (<[r := VehicleControl_new]> (objects w))).

(** An attribute assignment on the object behind [r]. *)
Definition assign (r : ref) (f : VehicleControl -> VehicleControl) (w : World) : World :=
  mkWorld (actors w) (alter f r (objects w)).

(** [vehicle.apply_control(control)]: the actor receives the value the
    object has at this moment. *)
Definition apply_control (a : actor_id) (r : ref) (w : World) : World :=
  match objects w !! r with
  | Some c =>
      let v := actors w a in
      mkWorld (<[a := mkVehicle (get_location v) (get_velocity v) ((r, c) :: received v)]> (actors w))
              (objects w)
  | None => w
  end.

(* ------------------------------------------------------------------ *)
(** ** Kinematic helpers *)

Definition EPSILON : Q := 0.001.

Section Helpers.
Variable sqrt : Q -> Q.

(** [carla.Location.distance]: the straight-line distance. *)
Definition Location_distance (l o : Location) : Q :=
  sqrt ((loc_x l - loc_x o) ^ 2 + (loc_y l - loc_y o) ^ 2 + (loc_z l - loc_z o) ^ 2).

Definition calculate_distance (location other_location : Location) : Q :=
  Location_distance location other_location.

Definition calculate_velocity (vehicle : Vehicle) : Q :=
  let velocity_squared := vec_x (get_velocity vehicle) ^ 2 in
  let velocity_squared := velocity_squared + vec_y (get_velocity vehicle) ^ 2 in
  sqrt velocity_squared.

End Helpers.

(* ------------------------------------------------------------------ *)
(** ** Condition nodes *)

Module InTriggerRegion.

Record t : Set := __init__ {
  vehicle : actor_id;
  min_x : Q;
  max_x : Q;
  min_y : Q;
  max_y : Q
}.

(** [setup] acquires nothing and reports success; [initialise] resets
    nothing. *)
Definition setup (self : t) (unused_timeout : Q) : bool := true.

Definition initialise (self : t) (w : World) : World := w.

Definition update (self : t) (w : World) : Status :=
  let location := get_location (actors w (vehicle self)) in
  let not_in_region :=
    (Qltb (loc_x location) (min_x self) || Qgtb (loc_x location) (max_x self))
    || (Qltb (loc_y location) (min_y self) || Qgtb (loc_y location) (max_y self)) in
  if not_in_region then RUNNING else SUCCESS.

Definition terminate (self : t) (new_status : Status) (w : World) : World := w.

End InTriggerRegion.

Module InTriggerDistanceToVehicle.

Record t : Set := __init__ {
  other_vehicle : actor_id;
  ego_vehicle : actor_id;
  distance : Q
}.

(** [setup] acquires nothing and reports success; [initialise] resets
    nothing. *)
Definition setup (self : t) (unused_timeout : Q) : bool := true.

Definition initialise (self : t) (w : World) : World := w.

Section WithSqrt.
Variable sqrt : Q -> Q.

Definition update (self : t) (w : World) : Status :=
  let ego_location := get_location (actors w (ego_vehicle self)) in
  let other_location := get_location (actors w (other_vehicle self)) in
  if Qgtb (calculate_distance sqrt ego_location other_location) (distance self)
  then RUNNING
  else SUCCESS.

End WithSqrt.

Definition terminate (self : t) (new_status : Status) (w : World) : World := w.

End InTriggerDistanceToVehicle.

Module InTriggerDistanceToLocation.

Record t : Set := __init__ {
  vehicle : actor_id;
  target_location : Location;
  distance : Q
}.

(** [setup] acquires nothing and reports success; [initialise] resets
    nothing. *)
Definition setup (self : t) (unused_timeout : Q) : bool := true.

Definition initialise (self : t) (w : World) : World := w.

Section WithSqrt.
Variable sqrt : Q -> Q.

Definition update (self : t) (w : World) : Status :=
  let location := get_location (actors w (vehicle self)) in
  if Qgtb (calculate_distance sqrt location (target_location self)) (distance self)
  then RUNNING
  else SUCCESS.

End WithSqrt.

Definition terminate (self : t) (new_status : Status) (w : World) : World := w.

End InTriggerDistanceToLocation.

Module TriggerVelocity.

Record t : Set := __init__ {
  vehicle : actor_id;
  target_velocity : Q
}.

(** [setup] acquires nothing and reports success; [initialise] resets
    nothing. *)
Definition setup (self : t) (unused_timeout : Q) : bool := true.

Definition initialise (self : t) (w : World) : World := w.

Section WithSqrt.
Variable sqrt : Q -> Q.

Definition update (self : t) (w : World) : Status :=
  if Qltb (calculate_velocity sqrt (actors w (vehicle self)) - target_velocity self) EPSILON
  then SUCCESS
  else RUNNING.

End WithSqrt.

Definition terminate (self : t) (new_status : Status) (w : World) : World := w.

End TriggerVelocity.

Module InTimeToArrivalToLocation.

Definition max_time_to_arrival : Q := 10000.

Record t : Set := __init__ {
  vehicle : actor_id;
  time : Q;
  target_location : Location
}.

(** [setup] acquires nothing and reports success; [initialise] resets
    nothing. *)
Definition setup (self : t) (unused_timeout : Q) : bool := true.

Definition initialise (self : t) (w : World) : World := w.

Section WithSqrt.
Variable sqrt : Q -> Q.

(** The local variable [time_to_arrival] of [update]. *)
Definition time_to_arrival (self : t) (w : World) : Eval Q :=
  let current_location := get_location (actors w (vehicle self)) in
  let distance := calculate_distance sqrt current_location (target_location self) in
  let velocity := calculate_velocity sqrt (actors w (vehicle self)) in
  if Qgtb velocity EPSILON
  then py_div distance velocity
  else ret max_time_to_arrival.

Definition update (self : t) (w : World) : Eval Status :=
  tta <~ time_to_arrival self w;
  ret (if Qgtb tta (time self) then RUNNING else SUCCESS).

End WithSqrt.

Definition terminate (self : t) (new_status : Status) (w : World) : World := w.

End InTimeToArrivalToLocation.

Module InTimeToArrivalToVehicle.

Definition max_time_to_arrival : Q := 10000.

Record t : Set := __init__ {
  other_vehicle : actor_id;
  ego_vehicle : actor_id;
  time : Q
}.

(** [setup] acquires nothing and reports success; [initialise] resets
    nothing. *)
Definition setup (self : t) (unused_timeout : Q) : bool := true.

Definition initialise (self : t) (w : World) : World := w.

Section WithSqrt.
Variable sqrt : Q -> Q.

(** The local variable [time_to_arrival] of [update]. *)
Definition time_to_arrival (self : t) (w : World) : Eval Q :=
  let current_location := get_location (actors w (ego_vehicle self)) in
  let target_location := get_location (actors w (other_vehicle self)) in
  let distance := calculate_distance sqrt current_location target_location in
  let current_velocity := calculate_velocity sqrt (actors w (ego_vehicle self)) in
  let other_velocity := calculate_velocity sqrt (actors w (other_vehicle self)) in
  if Qgtb current_velocity other_velocity
  then py_div (2 * distance) (current_velocity - other_velocity)
  else ret max_time_to_arrival.

Definition update (self : t) (w : World) : Eval Status :=
  tta <~ time_to_arrival self w;
  ret (if Qgtb tta (time self) then RUNNING else SUCCESS).

End WithSqrt.

Definition terminate (self : t) (new_status : Status) (w : World) : World := w.

End InTimeToArrivalToVehicle.

(* ------------------------------------------------------------------ *)
(** ** Action nodes *)

Module AccelerateToVelocity.

Record t : Set := mk {
  control : ref;
  vehicle : actor_id;
  throttle_value : Q;
  target_velocity : Q
}.

Definition __init__ (vehicle : actor_id) (throttle_value target_velocity : Q)
    (w : World) : t * World :=
  let (control, w) := new_VehicleControl w in
  (mk control vehicle throttle_value target_velocity, w).

(** [setup] acquires nothing and reports success; [initialise] resets
    nothing. *)
Definition setup (self : t) (unused_timeout : Q) : bool := true.

Definition initialise (self : t) (w : World) : World := w.

Section WithSqrt.
Variable sqrt : Q -> Q.

Definition update (self : t) (w : World) : Status * World :=
  let (new_status, w) :=
    if Qltb (calculate_velocity sqrt (actors w (vehicle self))) (target_velocity self)
    then (RUNNING, assign (control self) (set_throttle (throttle_value self)) w)
    else (SUCCESS, assign (control self) (set_throttle 0) w) in
  let w := apply_control (vehicle self) (control self) w in
  (new_status, w).

End WithSqrt.

Definition terminate (self : t) (new_status : Status) (w : World) : World := w.

End AccelerateToVelocity.

Module KeepVelocity.

Record t : Set := mk {
  control : ref;
  vehicle : actor_id;
  target_velocity : Q
}.

Definition __init__ (vehicle : actor_id) (target_velocity : Q) (w : World) : t * World :=
  let (control, w) := new_VehicleControl w in
  (mk control vehicle target_velocity, w).

(** [setup] acquires nothing and reports success; [initialise] resets
    nothing. *)
Definition setup (self : t) (unused_timeout : Q) : bool := true.

Definition initialise (self : t) (w : World) : World := w.

Section WithSqrt.
Variable sqrt : Q -> Q.

Definition update (self : t) (w : World) : Status * World :=
  let new_status := RUNNING in
  let w :=
    if Qltb (calculate_velocity sqrt (actors w (vehicle self))) (target_velocity self)
    then assign (control self) (set_throttle 1.0) w
    else assign (control self) (set_throttle 0.0) w in
  let w := apply_control (vehicle self) (control self) w in
  (new_status, w).

End WithSqrt.

Definition terminate (self : t) (new_status : Status) (w : World) : World :=
  let w := assign (control self) (set_throttle 0.0) w in
  apply_control (vehicle self) (control self) w.

End KeepVelocity.

Module StopVehicle.

Record t : Set := mk {
  control : ref;
  vehicle : actor_id;
  brake_value : Q
}.

Definition __init__ (vehicle : actor_id) (brake_value : Q) (w : World) : t * World :=
  let (control, w) := new_VehicleControl w in
  (mk control vehicle brake_value, w).

(** [setup] acquires nothing and reports success; [initialise] resets
    nothing. *)
Definition setup (self : t) (unused_timeout : Q) : bool := true.

Definition initialise (self : t) (w : World) : World := w.

Section WithSqrt.
Variable sqrt : Q -> Q.

Definition update (self : t) (w : World) : Status * World :=
  let (new_status, w) :=
    if Qgtb (calculate_velocity sqrt (actors w (vehicle self))) EPSILON
    then (RUNNING, assign (control self) (set_brake (brake_value self)) w)
    else (SUCCESS, assign (control self) (set_brake 0) w) in
  let w := apply_control (vehicle self) (control self) w in
  (new_status, w).

End WithSqrt.

Definition terminate (self : t) (new_status : Status) (w : World) : World := w.

End StopVehicle.

(* ------------------------------------------------------------------ *)
(** ** The leaf nodes as the composite sees them *)

(** The composite calls [update] and [terminate] through the common
    [py_trees.behaviour.Behaviour] interface; here the dispatch is on the
    class of the node. *)
Inductive ConditionNode : Set :=
| Region (self : InTriggerRegion.t)
| DistanceToVehicle (self : InTriggerDistanceToVehicle.t)
| DistanceToLocation (self : InTriggerDistanceToLocation.t)
| Velocity (self : TriggerVelocity.t)
| TimeToLocation (self : InTimeToArrivalToLocation.t)
| TimeToVehicle (self : InTimeToArrivalToVehicle.t).

Inductive ActionNode : Set :=
| Accelerate (self : AccelerateToVelocity.t)
| Keep (self : KeepVelocity.t)
| Stop (self : StopVehicle.t).

Definition action_vehicle (n : ActionNode) : actor_id :=
  match n with
  | Accelerate self => AccelerateToVelocity.vehicle self
  | Keep self => KeepVelocity.vehicle self
  | Stop self => StopVehicle.vehicle self
  end.

Definition action_control (n : ActionNode) : ref :=
  match n with
  | Accelerate self => AccelerateToVelocity.control self
  | Keep self => KeepVelocity.control self
  | Stop self => StopVehicle.control self
  end.

Definition action_terminate (n : ActionNode) (new_status : Status) (w : World) : World :=
  match n with
  | Accelerate self => AccelerateToVelocity.terminate self new_status w
  | Keep self => KeepVelocity.terminate self new_status w
  | Stop self => StopVehicle.terminate self new_status w
  end.

(** What happens to an action node and its actor: the simulator moves the
    actor and the composite ticks the node, or the composite terminates
    the node. *)
Inductive Call : Set :=
| Tick (l : Location) (v : Vector3D)
| Terminate (new_status : Status).

Section Dispatch.
Variable sqrt : Q -> Q.

Definition condition_update (n : ConditionNode) (w : World) : Eval Status :=
  match n with
  | Region self => ret (InTriggerRegion.update self w)
  | DistanceToVehicle self => ret (InTriggerDistanceToVehicle.update sqrt self w)
  | DistanceToLocation self => ret (InTriggerDistanceToLocation.update sqrt self w)
  | Velocity self => ret (TriggerVelocity.update sqrt self w)
  | TimeToLocation self => InTimeToArrivalToLocation.update sqrt self w
  | TimeToVehicle self => InTimeToArrivalToVehicle.update sqrt self w
  end.

(** One [update] per simulation step, on the world of that step. *)
Definition condition_ticks (n : ConditionNode) (ws : list World) : list (option Status) :=
  map (fun w => outcome (condition_update n w)) ws.

Definition action_update (n : ActionNode) (w : World) : Status * World :=
  match n with
  | Accelerate self => AccelerateToVelocity.update sqrt self w
  | Keep self => KeepVelocity.update sqrt self w
  | Stop self => StopVehicle.update sqrt self w
  end.

(** The statuses returned by the ticks of a run, oldest first, and the
    world it ends in. *)
Fixpoint run (n : ActionNode) (calls : list Call) (w : World) : list Status * World :=
  match calls with
  | [] => ([], w)
  | Tick l v :: calls =>
      let (s, w) := action_update n (move (action_vehicle n) l v w) in
      let (ss, w) := run n calls w in
      (s :: ss, w)
  | Terminate new_status :: calls => run n calls (action_terminate n new_status w)
  end.

End Dispatch.

(** The constructor arguments of an action node, and the construction of
    the node through its class. *)
Inductive ActionArgs : Set :=
| AccelerateArgs (vehicle : actor_id) (throttle_value target_velocity : Q)
| KeepArgs (vehicle : actor_id) (target_velocity : Q)
| StopArgs (vehicle : actor_id) (brake_value : Q).

Definition action_init (args : ActionArgs) (w : World) : ActionNode * World :=
  match args with
  | AccelerateArgs vehicle throttle_value target_velocity =>
      let (self, w) := AccelerateToVelocity.__init__ vehicle throttle_value target_velocity w in
      (Accelerate self, w)
  | KeepArgs vehicle target_velocity =>
      let (self, w) := KeepVelocity.__init__ vehicle target_velocity w in
      (Keep self, w)
  | StopArgs vehicle brake_value =>
      let (self, w) := StopVehicle.__init__ vehicle brake_value w in
      (Stop self, w)
  end.

(** The actuation field an action node drives: the throttle for
    AccelerateToVelocity and KeepVelocity, the brake for StopVehicle. *)
Definition actuation (n : ActionNode) (c : VehicleControl) : Q :=
  match n with
  | Accelerate _ | Keep _ => throttle c
  | Stop _ => brake c
  end.

Definition set_actuation (n : ActionNode) (q : Q) (c : VehicleControl) : VehicleControl :=
  match n with
  | Accelerate _ | Keep _ => set_throttle q c
  | Stop _ => set_brake q c
  end.

(** Every field of a command other than the node's actuation field has the
    value the constructor of [carla.VehicleControl] gave it. *)
Definition untouched (n : ActionNode) (c : VehicleControl) : Prop :=
  steer c = steer VehicleControl_new
  /\ hand_brake c = hand_brake VehicleControl_new
  /\ reverse c = reverse VehicleControl_new
  /\ match n with
     | Accelerate _ | Keep _ => brake c = brake VehicleControl_new
     | Stop _ => throttle c = throttle VehicleControl_new
     end.

(** A world in which nothing has happened yet: every actor rests at the
    origin and no object exists. *)
Definition origin : Location := mkLocation 0 0 0.
Definition at_rest : Vector3D := mkVector3D 0 0 0.
Definition empty_world : World :=
  mkWorld (fun _ => mkVehicle origin at_rest []) ∅.

(* ------------------------------------------------------------------ *)
(** ** The predicates of the specification *)

(** The predicate column of the specification's table of condition nodes,
    in the specification's words; the theorems compare it with [update]. *)
Section SpecPredicates.
Variable sqrt : Q -> Q.

(** Time to arrival at a location: distance / speed, and the sentinel
    10000 when the speed is at most epsilon. *)
Definition spec_time_to_location (d v : Q) : Q :=
  if Qle_bool v EPSILON then 10000 else d / v.

(** Closing time to a vehicle: 2 * distance / (speed(ego) - speed(other))
    when the ego is faster than the other, the sentinel otherwise. *)
Definition spec_time_to_vehicle (d ve vo : Q) : Q :=
  if Qltb vo ve then 2 * d / (ve - vo) else 10000.

Definition satisfied (n : ConditionNode) (w : World) : Prop :=
  match n with
  | Region self =>
      let l := get_location (actors w (InTriggerRegion.vehicle self)) in
      (InTriggerRegion.min_x self <= loc_x l /\ loc_x l <= InTriggerRegion.max_x self)
      /\ (InTriggerRegion.min_y self <= loc_y l /\ loc_y l <= InTriggerRegion.max_y self)
  | DistanceToVehicle self =>
      calculate_distance sqrt
        (get_location (actors w (InTriggerDistanceToVehicle.ego_vehicle self)))
        (get_location (actors w (InTriggerDistanceToVehicle.other_vehicle self)))
      <= InTriggerDistanceToVehicle.distance self
  | DistanceToLocation self =>
      calculate_distance sqrt
        (get_location (actors w (InTriggerDistanceToLocation.vehicle self)))
        (InTriggerDistanceToLocation.target_location self)
      <= InTriggerDistanceToLocation.distance self
  | Velocity self =>
      calculate_velocity sqrt (actors w (TriggerVelocity.vehicle self))
        - TriggerVelocity.target_velocity self < EPSILON
  | TimeToLocation self =>
      spec_time_to_location
        (calculate_distance sqrt
           (get_location (actors w (InTimeToArrivalToLocation.vehicle self)))
           (InTimeToArrivalToLocation.target_location self))
        (calculate_velocity sqrt (actors w (InTimeToArrivalToLocation.vehicle self)))
      <= InTimeToArrivalToLocation.time self
  | TimeToVehicle self =>
      spec_time_to_vehicle
        (calculate_distance sqrt
           (get_location (actors w (InTimeToArrivalToVehicle.ego_vehicle self)))
           (get_location (actors w (InTimeToArrivalToVehicle.other_vehicle self))))
        (calculate_velocity sqrt (actors w (InTimeToArrivalToVehicle.ego_vehicle self)))
        (calculate_velocity sqrt (actors w (InTimeToArrivalToVehicle.other_vehicle self)))
      <= InTimeToArrivalToVehicle.time self
  end.

End SpecPredicates.

(* ------------------------------------------------------------------ *)
(** ** Concrete scenes *)

(** Actor 0 (the ego) and actor 1 (the other) placed in the empty world. *)
Definition scene (l0 : Location) (v0 : Vector3D) (l1 : Location) (v1 : Vector3D) : World :=
  move 1%nat l1 v1 (move 0%nat l0 v0 empty_world).

(** The ego at (0,0) with speed 10, the other at (100,0) with speed 0. *)
Definition closing_scene : World :=
  scene origin (mkVector3D 10 0 0) (mkLocation 100 0 0) at_rest.


(** Every actor stands still at the origin. *)
Definition standing_scene : World := scene origin at_rest origin at_rest.

(* ------------------------------------------------------------------ *)
(** ** Measures and orders used by the properties *)

(** Counting the calls of a run. *)
Definition is_tick (c : Call) : bool :=
  match c with Tick _ _ => true | Terminate _ => false end.

Definition ticks_in (calls : list Call) : nat := length (List.filter is_tick calls).
Definition terminations_in (calls : list Call) : nat :=
  length (List.filter (fun c => negb (is_tick c)) calls).

(** The commands a termination of the node sends: one for KeepVelocity,
    none for the other two. *)
Definition commands_per_termination (n : ActionNode) : nat :=
  match n with
  | Keep _ => 1%nat
  | Accelerate _ | Stop _ => 0%nat
  end.

(** [relaxes n n']: [n'] is the condition [n] with a wider region, a larger
    distance, a higher target velocity or a larger time budget. *)
Definition relaxes (n n' : ConditionNode) : Prop :=
  match n, n' with
  | Region s, Region s' =>
      InTriggerRegion.vehicle s = InTriggerRegion.vehicle s'
      /\ InTriggerRegion.min_x s' <= InTriggerRegion.min_x s
      /\ InTriggerRegion.max_x s <= InTriggerRegion.max_x s'
      /\ InTriggerRegion.min_y s' <= InTriggerRegion.min_y s
      /\ InTriggerRegion.max_y s <= InTriggerRegion.max_y s'
  | DistanceToVehicle s, DistanceToVehicle s' =>
      InTriggerDistanceToVehicle.other_vehicle s = InTriggerDistanceToVehicle.other_vehicle s'
      /\ InTriggerDistanceToVehicle.ego_vehicle s = InTriggerDistanceToVehicle.ego_vehicle s'
      /\ InTriggerDistanceToVehicle.distance s <= InTriggerDistanceToVehicle.distance s'
  | DistanceToLocation s, DistanceToLocation s' =>
      InTriggerDistanceToLocation.vehicle s = InTriggerDistanceToLocation.vehicle s'
      /\ InTriggerDistanceToLocation.target_location s
         = InTriggerDistanceToLocation.target_location s'
      /\ InTriggerDistanceToLocation.distance s <= InTriggerDistanceToLocation.distance s'
  | Velocity s, Velocity s' =>
      TriggerVelocity.vehicle s = TriggerVelocity.vehicle s'
      /\ TriggerVelocity.target_velocity s <= TriggerVelocity.target_velocity s'
  | TimeToLocation s, TimeToLocation s' =>
      InTimeToArrivalToLocation.vehicle s = InTimeToArrivalToLocation.vehicle s'
      /\ InTimeToArrivalToLocation.target_location s
         = InTimeToArrivalToLocation.target_location s'
      /\ InTimeToArrivalToLocation.time s <= InTimeToArrivalToLocation.time s'
  | TimeToVehicle s, TimeToVehicle s' =>
      InTimeToArrivalToVehicle.other_vehicle s = InTimeToArrivalToVehicle.other_vehicle s'
      /\ InTimeToArrivalToVehicle.ego_vehicle s = InTimeToArrivalToVehicle.ego_vehicle s'
      /\ InTimeToArrivalToVehicle.time s <= InTimeToArrivalToVehicle.time s'
  | _, _ => False
  end.

(** Two worlds in which every actor has the same position and the same
    horizontal velocity. *)
Definition same_horizontal_motion (w w' : World) : Prop :=
  forall a : actor_id,
    get_location (actors w a) = get_location (actors w' a)
    /\ vec_x (get_velocity (actors w a)) = vec_x (get_velocity (actors w' a))
    /\ vec_y (get_velocity (actors w a)) = vec_y (get_velocity (actors w' a)).

(* ------------------------------------------------------------------ *)
(** ** The time-to-arrival computations in binary64 *)

(** [InTimeToArrivalToLocation.update] and [InTimeToArrivalToVehicle.update]
    from the point where the distance and the speeds are known: the
    arguments are the binary64 numbers [calculate_distance] and
    [calculate_velocity] returned, and every operation is the IEEE 754
    binary64 operation Python performs. *)
Module Binary64.

Definition EPSILON : float := 0.001%float.

Definition max_time_to_arrival : float := 10000%float.

(** Python's [a / b] on floats: [None] stands for a raised
    [ZeroDivisionError]. *)
Definition py_div (a b : float) : option float :=
  if (b =? 0)%float then None else Some (a / b)%float.






End Binary64.


(* ------------------------------------------------------------------ *)
(** * Properties *)

(** ** Comparisons and division *)

Lemma Qltb_spec (x y : Q) : BoolSpec (x < y) (y <= x) (Qltb x y).
Proof.
  unfold Qltb. destruct (Qle_bool y x) eqn:E; simpl; constructor.
  - now apply Qle_bool_iff.
  - apply Qnot_le_lt. intros H. apply Qle_bool_iff in H. congruence.
Qed.

Lemma Qgtb_spec (x y : Q) : BoolSpec (y < x) (x <= y) (Qgtb x y).
Proof. unfold Qgtb. apply Qltb_spec. Qed.

Lemma Qle_bool_spec (x y : Q) : BoolSpec (x <= y) (y < x) (Qle_bool x y).
Proof.
  destruct (Qle_bool x y) eqn:E; constructor.
  - now apply Qle_bool_iff.
  - apply Qnot_le_lt. intros H. apply Qle_bool_iff in H. congruence.
Qed.

Lemma py_div_nonzero (a b : Q) : ~ b == 0 -> py_div a b = ([b], Some (a / b)).
Proof.
  intros H. unfold py_div. destruct (Qeq_bool b 0) eqn:E; [|reflexivity].
  apply Qeq_bool_iff in E. contradiction.
Qed.

Lemma EPSILON_pos : 0 < EPSILON.
Proof. reflexivity. Qed.

Ltac cases_Q :=
  repeat match goal with
  | |- context [Qltb ?x ?y] => destruct (Qltb_spec x y)
  | |- context [Qgtb ?x ?y] => destruct (Qgtb_spec x y)
  | |- context [Qle_bool ?x ?y] => destruct (Qle_bool_spec x y)
  end.

(** ** InTriggerRegion *)

(** C7. [InTriggerRegion.update] returns SUCCESS exactly when the actor's
    position satisfies min_x <= x <= max_x and min_y <= y <= max_y (the four
    bounds included), and RUNNING exactly when x < min_x, x > max_x,
    y < min_y or y > max_y. *)
Theorem InTriggerRegion_update_inclusive (self : InTriggerRegion.t) (w : World) :
  let l := get_location (actors w (InTriggerRegion.vehicle self)) in
  (InTriggerRegion.update self w = SUCCESS <->
     (InTriggerRegion.min_x self <= loc_x l <= InTriggerRegion.max_x self
      /\ InTriggerRegion.min_y self <= loc_y l <= InTriggerRegion.max_y self))
  /\ (InTriggerRegion.update self w = RUNNING <->
     (loc_x l < InTriggerRegion.min_x self \/ InTriggerRegion.max_x self < loc_x l
      \/ loc_y l < InTriggerRegion.min_y self \/ InTriggerRegion.max_y self < loc_y l)).
Proof.
  intros l. unfold InTriggerRegion.update. fold l.
  cases_Q; simpl; (split; split; intros; try discriminate; try reflexivity; try lra).
Qed.

(** ** TriggerVelocity *)

(** A vehicle at speed 10 against the target velocity 5: speed >= target,
    and [update] returns RUNNING. *)
Lemma TriggerVelocity_above_target_running :
  let self := TriggerVelocity.__init__ 0%nat 5 in
  TriggerVelocity.target_velocity self
    <= calculate_velocity Qsqrt (actors closing_scene (TriggerVelocity.vehicle self))
  /\ TriggerVelocity.update Qsqrt self closing_scene = RUNNING.
Proof. split; [vm_compute; discriminate | reflexivity]. Qed.

Section TriggerVelocityProperties.
Variable sqrt : Q -> Q.

(** C3, amended. [TriggerVelocity.update] returns SUCCESS exactly when
    speed - target < epsilon, on the first tick as on any other: with the
    speed at or above the target it succeeds only while the speed exceeds
    the target by less than epsilon, and returns RUNNING otherwise. *)
Theorem TriggerVelocity_update_below_tolerance (self : TriggerVelocity.t) (w : World) :
  let speed := calculate_velocity sqrt (actors w (TriggerVelocity.vehicle self)) in
  (TriggerVelocity.update sqrt self w = SUCCESS <->
     speed - TriggerVelocity.target_velocity self < EPSILON)
  /\ (TriggerVelocity.update sqrt self w = RUNNING <->
     EPSILON <= speed - TriggerVelocity.target_velocity self).
Proof.
  intros speed. unfold TriggerVelocity.update. fold speed.
  cases_Q; (split; split; intros; try discriminate; try reflexivity; try lra).
Qed.

End TriggerVelocityProperties.

(** ** InTimeToArrivalToLocation *)

(** An actor standing at the target location (speed 0, distance 0) with the
    time budget 5 gets RUNNING; an actor standing at distance 5 from it with
    the time budget 20000 gets SUCCESS. *)
Lemma InTimeToArrivalToLocation_standing_counterexample :
  let here := InTimeToArrivalToLocation.__init__ 0%nat 5 origin in
  let far := InTimeToArrivalToLocation.__init__ 0%nat 20000 (mkLocation 3 4 0) in
  let actor := actors standing_scene 0%nat in
  calculate_velocity Qsqrt actor == 0
  /\ (calculate_distance Qsqrt (get_location actor) origin == 0
      /\ outcome (InTimeToArrivalToLocation.update Qsqrt here standing_scene) = Some RUNNING)
  /\ (calculate_distance Qsqrt (get_location actor) (mkLocation 3 4 0) == 5
      /\ outcome (InTimeToArrivalToLocation.update Qsqrt far standing_scene) = Some SUCCESS).
Proof. repeat split. Qed.

Section TimeToLocationProperties.
Variable sqrt : Q -> Q.

(** C2, amended. For an actor whose speed is 0, [update] takes the sentinel
    10000 as time to arrival whatever the distance, zero included: it
    returns SUCCESS exactly when the time budget is at least 10000 and
    RUNNING exactly when the budget is below 10000. *)
Theorem InTimeToArrivalToLocation_standing (self : InTimeToArrivalToLocation.t) (w : World) :
  calculate_velocity sqrt (actors w (InTimeToArrivalToLocation.vehicle self)) == 0 ->
  outcome (InTimeToArrivalToLocation.time_to_arrival sqrt self w) = Some 10000
  /\ (outcome (InTimeToArrivalToLocation.update sqrt self w) = Some SUCCESS <->
        10000 <= InTimeToArrivalToLocation.time self)
  /\ (outcome (InTimeToArrivalToLocation.update sqrt self w) = Some RUNNING <->
        InTimeToArrivalToLocation.time self < 10000).
Proof.
  intros Hv.
  unfold InTimeToArrivalToLocation.update, InTimeToArrivalToLocation.time_to_arrival.
  destruct (Qgtb_spec
    (calculate_velocity sqrt (actors w (InTimeToArrivalToLocation.vehicle self))) EPSILON)
    as [Hgt|Hle].
  - exfalso. pose proof EPSILON_pos. lra.
  - unfold InTimeToArrivalToLocation.max_time_to_arrival. simpl.
    split; [reflexivity|].
    destruct (Qgtb_spec 10000 (InTimeToArrivalToLocation.time self));
      (split; split; intros; try discriminate; try reflexivity; try lra).
Qed.

End TimeToLocationProperties.

Lemma InTimeToArrivalToLocation_standing_witness :
  let self := InTimeToArrivalToLocation.__init__ 0%nat 5 (mkLocation 3 4 0) in
  calculate_velocity Qsqrt (actors standing_scene (InTimeToArrivalToLocation.vehicle self)) == 0
  /\ (outcome (InTimeToArrivalToLocation.update Qsqrt self standing_scene) = Some RUNNING <->
        InTimeToArrivalToLocation.time self < 10000).
Proof.
  split; [reflexivity|].
  apply (InTimeToArrivalToLocation_standing Qsqrt
           (InTimeToArrivalToLocation.__init__ 0%nat 5 (mkLocation 3 4 0)) standing_scene).
  reflexivity.
Defined.

(** ** InTimeToArrivalToVehicle *)

(** With both vehicles standing, so that the ego is not faster, and the
    time budget 10000, [InTimeToArrivalToVehicle.update] takes the sentinel
    and returns SUCCESS: the sentinel does not keep it RUNNING for every
    budget. *)
Lemma InTimeToArrivalToVehicle_sentinel_success :
  let self := InTimeToArrivalToVehicle.__init__ 1%nat 0%nat 10000 in
  calculate_velocity Qsqrt (actors standing_scene (InTimeToArrivalToVehicle.ego_vehicle self))
    <= calculate_velocity Qsqrt
         (actors standing_scene (InTimeToArrivalToVehicle.other_vehicle self))
  /\ outcome (InTimeToArrivalToVehicle.time_to_arrival Qsqrt self standing_scene) = Some 10000
  /\ outcome (InTimeToArrivalToVehicle.update Qsqrt self standing_scene) = Some SUCCESS.
Proof. split; [vm_compute; discriminate | split; reflexivity]. Qed.

Section TimeToVehicleProperties.
Variable sqrt : Q -> Q.

Lemma time_to_vehicle_faster (self : InTimeToArrivalToVehicle.t) (w : World) :
  let d := calculate_distance sqrt
             (get_location (actors w (InTimeToArrivalToVehicle.ego_vehicle self)))
             (get_location (actors w (InTimeToArrivalToVehicle.other_vehicle self))) in
  let ve := calculate_velocity sqrt (actors w (InTimeToArrivalToVehicle.ego_vehicle self)) in
  let vo := calculate_velocity sqrt (actors w (InTimeToArrivalToVehicle.other_vehicle self)) in
  vo < ve ->
  InTimeToArrivalToVehicle.time_to_arrival sqrt self w = ([ve - vo], Some (2 * d / (ve - vo))).
Proof.
  intros d ve vo H. unfold InTimeToArrivalToVehicle.time_to_arrival.
  fold d ve vo. destruct (Qgtb_spec ve vo); [|lra].
  apply py_div_nonzero. lra.
Qed.

Lemma time_to_vehicle_not_faster (self : InTimeToArrivalToVehicle.t) (w : World) :
  calculate_velocity sqrt (actors w (InTimeToArrivalToVehicle.ego_vehicle self))
    <= calculate_velocity sqrt (actors w (InTimeToArrivalToVehicle.other_vehicle self)) ->
  InTimeToArrivalToVehicle.time_to_arrival sqrt self w = ([], Some 10000).
Proof.
  intros H. unfold InTimeToArrivalToVehicle.time_to_arrival.
  destruct (Qgtb_spec
    (calculate_velocity sqrt (actors w (InTimeToArrivalToVehicle.ego_vehicle self)))
    (calculate_velocity sqrt (actors w (InTimeToArrivalToVehicle.other_vehicle self))));
    [lra | reflexivity].
Qed.

Lemma time_to_vehicle_status (self : InTimeToArrivalToVehicle.t) (w : World) (t : Q) :
  outcome (InTimeToArrivalToVehicle.time_to_arrival sqrt self w) = Some t ->
  (outcome (InTimeToArrivalToVehicle.update sqrt self w) = Some SUCCESS <->
     t <= InTimeToArrivalToVehicle.time self)
  /\ (outcome (InTimeToArrivalToVehicle.update sqrt self w) = Some RUNNING <->
     InTimeToArrivalToVehicle.time self < t).
Proof.
  unfold InTimeToArrivalToVehicle.update.
  destruct (InTimeToArrivalToVehicle.time_to_arrival sqrt self w) as [ds [t'|]];
    simpl; intros H; [|discriminate].
  injection H as ->.
  destruct (Qgtb_spec t (InTimeToArrivalToVehicle.time self));
    (split; split; intros; try discriminate; try reflexivity; try lra).
Qed.

(** C4, amended. [InTimeToArrivalToVehicle.update] takes 2 * distance /
    (speed(ego) - speed(other)) as closing time when the ego is strictly
    faster than the other and the sentinel 10000 otherwise; on the sentinel
    it returns RUNNING exactly when the budget T is below 10000 and SUCCESS
    exactly when T is at least 10000.  In every case it returns SUCCESS
    exactly when the resulting time is at most T and RUNNING exactly when it
    exceeds T.  With distance 100, ego speed 10 and other speed 0 the
    closing time is 20: RUNNING for T = 5 and SUCCESS for T = 25. *)
Theorem InTimeToArrivalToVehicle_closing_time (self : InTimeToArrivalToVehicle.t) (w : World) :
  let d := calculate_distance sqrt
             (get_location (actors w (InTimeToArrivalToVehicle.ego_vehicle self)))
             (get_location (actors w (InTimeToArrivalToVehicle.other_vehicle self))) in
  let ve := calculate_velocity sqrt (actors w (InTimeToArrivalToVehicle.ego_vehicle self)) in
  let vo := calculate_velocity sqrt (actors w (InTimeToArrivalToVehicle.other_vehicle self)) in
  let T := InTimeToArrivalToVehicle.time self in
  (vo < ve ->
     outcome (InTimeToArrivalToVehicle.time_to_arrival sqrt self w) = Some (2 * d / (ve - vo)))
  /\ (ve <= vo ->
     outcome (InTimeToArrivalToVehicle.time_to_arrival sqrt self w) = Some 10000
     /\ (outcome (InTimeToArrivalToVehicle.update sqrt self w) = Some RUNNING <-> T < 10000)
     /\ (outcome (InTimeToArrivalToVehicle.update sqrt self w) = Some SUCCESS <-> 10000 <= T))
  /\ (exists t, outcome (InTimeToArrivalToVehicle.time_to_arrival sqrt self w) = Some t
       /\ (outcome (InTimeToArrivalToVehicle.update sqrt self w) = Some SUCCESS <-> t <= T)
       /\ (outcome (InTimeToArrivalToVehicle.update sqrt self w) = Some RUNNING <-> T < t))
  /\ (d == 100 -> ve == 10 -> vo == 0 ->
       (exists t, outcome (InTimeToArrivalToVehicle.time_to_arrival sqrt self w) = Some t
          /\ t == 20)
       /\ (T == 5 -> outcome (InTimeToArrivalToVehicle.update sqrt self w) = Some RUNNING)
       /\ (T == 25 -> outcome (InTimeToArrivalToVehicle.update sqrt self w) = Some SUCCESS)).
Proof.
  intros d ve vo T.
  assert (Hex : exists t,
    outcome (InTimeToArrivalToVehicle.time_to_arrival sqrt self w) = Some t
    /\ (outcome (InTimeToArrivalToVehicle.update sqrt self w) = Some SUCCESS <-> t <= T)
    /\ (outcome (InTimeToArrivalToVehicle.update sqrt self w) = Some RUNNING <-> T < t)).
  { destruct (Qlt_le_dec vo ve) as [H|H].
    - exists (2 * d / (ve - vo)).
      assert (E : outcome (InTimeToArrivalToVehicle.time_to_arrival sqrt self w)
                  = Some (2 * d / (ve - vo)))
        by (rewrite (time_to_vehicle_faster self w H); reflexivity).
      split; [exact E | exact (time_to_vehicle_status self w _ E)].
    - exists 10000.
      assert (E : outcome (InTimeToArrivalToVehicle.time_to_arrival sqrt self w) = Some 10000)
        by (rewrite (time_to_vehicle_not_faster self w H); reflexivity).
      split; [exact E | exact (time_to_vehicle_status self w _ E)]. }
  split; [|split; [|split]].
  - intros H. rewrite (time_to_vehicle_faster self w H). reflexivity.
  - intros H.
    assert (E : outcome (InTimeToArrivalToVehicle.time_to_arrival sqrt self w) = Some 10000)
      by (rewrite (time_to_vehicle_not_faster self w H); reflexivity).
    destruct (time_to_vehicle_status self w _ E) as [HS HR]. fold T in HS, HR.
    split; [exact E|]. split; [exact HR | exact HS].
  - exact Hex.
  - intros Hd Hve Hvo.
    assert (H : vo < ve) by lra.
    assert (E : outcome (InTimeToArrivalToVehicle.time_to_arrival sqrt self w)
                = Some (2 * d / (ve - vo)))
      by (rewrite (time_to_vehicle_faster self w H); reflexivity).
    assert (E20 : 2 * d / (ve - vo) == 20).
    { rewrite Hd, Hve, Hvo. reflexivity. }
    destruct (time_to_vehicle_status self w _ E) as [HS HR]. fold T in HS, HR.
    split; [exists (2 * d / (ve - vo)); split; [exact E | exact E20]|].
    split; intros HT; [apply HR | apply HS]; lra.
Qed.

End TimeToVehicleProperties.

Lemma InTimeToArrivalToVehicle_closing_time_witness :
  let self5 := InTimeToArrivalToVehicle.__init__ 1%nat 0%nat 5 in
  let self25 := InTimeToArrivalToVehicle.__init__ 1%nat 0%nat 25 in
  outcome (InTimeToArrivalToVehicle.time_to_arrival Qsqrt self5 closing_scene)
    = Some (2 * 100 / (10 - 0))
  /\ outcome (InTimeToArrivalToVehicle.update Qsqrt self5 closing_scene) = Some RUNNING
  /\ outcome (InTimeToArrivalToVehicle.update Qsqrt self25 closing_scene) = Some SUCCESS
  /\ (outcome (InTimeToArrivalToVehicle.update Qsqrt self5 standing_scene) = Some RUNNING
      <-> InTimeToArrivalToVehicle.time self5 < 10000).
Proof.
  intros self5 self25.
  destruct (InTimeToArrivalToVehicle_closing_time Qsqrt self5 closing_scene)
    as (Hfast & _ & _ & H5).
  destruct (InTimeToArrivalToVehicle_closing_time Qsqrt self25 closing_scene)
    as (_ & _ & _ & H25).
  destruct (InTimeToArrivalToVehicle_closing_time Qsqrt self5 standing_scene)
    as (_ & Hslow & _).
  split; [apply Hfast; reflexivity|].
  split; [apply H5; reflexivity|].
  split; [apply H25; reflexivity|].
  apply Hslow. vm_compute; discriminate.
Defined.

(** ** The division guards of the two time-to-arrival nodes *)

Section DivisionGuards.
Variable sqrt : Q -> Q.



Lemma time_to_location_cases (self : InTimeToArrivalToLocation.t) (w : World) :
  let d := calculate_distance sqrt
             (get_location (actors w (InTimeToArrivalToLocation.vehicle self)))
             (InTimeToArrivalToLocation.target_location self) in
  let v := calculate_velocity sqrt (actors w (InTimeToArrivalToLocation.vehicle self)) in
  (EPSILON < v
   /\ InTimeToArrivalToLocation.time_to_arrival sqrt self w = ([v], Some (d / v)))
  \/ (v <= EPSILON
      /\ InTimeToArrivalToLocation.time_to_arrival sqrt self w = ([], Some 10000)).
Proof.
  intros d v. unfold InTimeToArrivalToLocation.time_to_arrival. fold d v.
  pose proof EPSILON_pos.
  destruct (Qgtb_spec v EPSILON); [left | right]; split; try assumption.
  - apply py_div_nonzero. lra.
  - reflexivity.
Qed.

Lemma time_to_vehicle_cases (self : InTimeToArrivalToVehicle.t) (w : World) :
  let d := calculate_distance sqrt
             (get_location (actors w (InTimeToArrivalToVehicle.ego_vehicle self)))
             (get_location (actors w (InTimeToArrivalToVehicle.other_vehicle self))) in
  let ve := calculate_velocity sqrt (actors w (InTimeToArrivalToVehicle.ego_vehicle self)) in
  let vo := calculate_velocity sqrt (actors w (InTimeToArrivalToVehicle.other_vehicle self)) in
  (vo < ve
   /\ InTimeToArrivalToVehicle.time_to_arrival sqrt self w
      = ([ve - vo], Some (2 * d / (ve - vo))))
  \/ (ve <= vo
      /\ InTimeToArrivalToVehicle.time_to_arrival sqrt self w = ([], Some 10000)).
Proof.
  intros d ve vo. destruct (Qlt_le_dec vo ve) as [H|H]; [left | right]; split; try assumption.
  - exact (time_to_vehicle_faster sqrt self w H).
  - exact (time_to_vehicle_not_faster sqrt self w H).
Qed.


End DivisionGuards.

(** ** All condition nodes *)

Section ConditionProperties.
Variable sqrt : Q -> Q.

Ltac decide_status :=
  cases_Q; simpl;
  (split; split; intros; try discriminate; try reflexivity; try lra).

Lemma condition_update_iff (n : ConditionNode) (w : World) :
  (outcome (condition_update sqrt n w) = Some SUCCESS <-> satisfied sqrt n w)
  /\ (outcome (condition_update sqrt n w) = Some RUNNING <-> ~ satisfied sqrt n w).
Proof.
  destruct n as [self|self|self|self|self|self]; simpl.
  - unfold InTriggerRegion.update. decide_status.
  - unfold InTriggerDistanceToVehicle.update. decide_status.
  - unfold InTriggerDistanceToLocation.update. decide_status.
  - unfold TriggerVelocity.update. decide_status.
  - unfold InTimeToArrivalToLocation.update, spec_time_to_location.
    destruct (time_to_location_cases sqrt self w) as [[Hv E]|[Hv E]];
      rewrite E; simpl; decide_status.
  - unfold InTimeToArrivalToVehicle.update, spec_time_to_vehicle.
    destruct (time_to_vehicle_cases sqrt self w) as [[Hv E]|[Hv E]];
      rewrite E; simpl; decide_status.
Qed.

Lemma condition_ticks_app (n : ConditionNode) (ws ws' : list World) :
  condition_ticks sqrt n (ws ++ ws') = condition_ticks sqrt n ws ++ condition_ticks sqrt n ws'.
Proof. apply map_app. Qed.

Lemma condition_ticks_unsatisfied (n : ConditionNode) (ws : list World) :
  Forall (fun w => ~ satisfied sqrt n w) ws ->
  condition_ticks sqrt n ws = repeat (Some RUNNING) (length ws).
Proof.
  induction 1 as [|w ws Hw _ IH]; simpl; [reflexivity|].
  rewrite IH. f_equal. now apply condition_update_iff.
Qed.

(** C6. Every condition node returns RUNNING or SUCCESS from [update] on
    every world, never FAILURE (and never INVALID or an error); it returns
    SUCCESS exactly on the worlds where its predicate holds.  Ticked over
    successive worlds, it returns RUNNING on each one where the predicate
    fails and SUCCESS on the very tick of the first world where the
    predicate holds. *)
Theorem condition_nodes_running_or_success :
  (forall n w,
     outcome (condition_update sqrt n w) = Some RUNNING
     \/ outcome (condition_update sqrt n w) = Some SUCCESS)
  /\ (forall n w, outcome (condition_update sqrt n w) <> Some FAILURE)
  /\ (forall n w,
     outcome (condition_update sqrt n w) = Some SUCCESS <-> satisfied sqrt n w)
  /\ (forall n before w after,
     Forall (fun w' => ~ satisfied sqrt n w') before ->
     satisfied sqrt n w ->
     condition_ticks sqrt n (before ++ w :: after)
     = repeat (Some RUNNING) (length before)
       ++ Some SUCCESS :: condition_ticks sqrt n after).
Proof.
  assert (Hcases : forall n w,
    outcome (condition_update sqrt n w) = Some RUNNING
    \/ outcome (condition_update sqrt n w) = Some SUCCESS).
  { intros n w. destruct (condition_update_iff n w) as [HS HR].
    destruct (outcome (condition_update sqrt n w)) as [[]|] eqn:E; auto;
      right; apply HS.
    all: destruct n as [self|self|self|self|self|self]; simpl in E.
    all: try (unfold InTriggerRegion.update in E);
         try (unfold InTriggerDistanceToVehicle.update in E);
         try (unfold InTriggerDistanceToLocation.update in E);
         try (unfold TriggerVelocity.update in E);
         try (unfold InTimeToArrivalToLocation.update in E;
              destruct (time_to_location_cases sqrt self w) as [[Hv E']|[Hv E']];
              rewrite E' in E; simpl in E);
         try (unfold InTimeToArrivalToVehicle.update in E;
              destruct (time_to_vehicle_cases sqrt self w) as [[Hv E']|[Hv E']];
              rewrite E' in E; simpl in E).
    all: revert E; cases_Q; simpl; discriminate. }
  split; [exact Hcases|].
  split; [intros n w; destruct (Hcases n w) as [E|E]; rewrite E; discriminate|].
  split; [intros n w; apply condition_update_iff|].
  intros n before w after Hbefore Hw.
  rewrite condition_ticks_app, (condition_ticks_unsatisfied n before Hbefore).
  simpl. do 2 f_equal. now apply condition_update_iff.
Qed.

End ConditionProperties.

Lemma condition_nodes_running_or_success_witness :
  let n := Region (InTriggerRegion.__init__ 0%nat (-1) 1 (-1) 1) in
  let outside := move 0%nat (mkLocation 2 0 0) at_rest empty_world in
  condition_ticks Qsqrt n [outside; outside; standing_scene; outside]
  = [Some RUNNING; Some RUNNING; Some SUCCESS; Some RUNNING].
Proof.
  intros n outside.
  destruct (condition_nodes_running_or_success Qsqrt) as (_ & _ & _ & H).
  assert (Hout : ~ satisfied Qsqrt n outside).
  { intros [[_ H1] _]. vm_compute in H1. now apply H1. }
  apply (H n [outside; outside] standing_scene [outside]).
  - constructor; [exact Hout|]. constructor; [exact Hout|]. constructor.
  - vm_compute. repeat split; discriminate.
Defined.

(** ** The world operations *)

Lemma objects_move (a : actor_id) (l : Location) (v : Vector3D) (w : World) :
  objects (move a l v w) = objects w.
Proof. reflexivity. Qed.

Lemma received_move (a b : actor_id) (l : Location) (v : Vector3D) (w : World) :
  received (actors (move a l v w) b) = received (actors w b).
Proof.
  unfold move; simpl. destruct (decide (a = b)) as [->|Hne].
  - now rewrite fn_lookup_insert.
  - now rewrite fn_lookup_insert_ne.
Qed.

Lemma objects_apply_control (a : actor_id) (r : ref) (w : World) :
  objects (apply_control a r w) = objects w.
Proof. unfold apply_control. destruct (objects w !! r); reflexivity. Qed.

Lemma new_VehicleControl_fresh (w : World) :
  objects w !! fst (new_VehicleControl w) = None
  /\ objects (snd (new_VehicleControl w))
     = <[fst (new_VehicleControl w) := VehicleControl_new]> (objects w)
  /\ actors (snd (new_VehicleControl w)) = actors w.
Proof.
  unfold new_VehicleControl; simpl. split; [|split; reflexivity].
  apply not_elem_of_dom, is_fresh.
Qed.

(** An attribute assignment followed by [apply_control], on an object that
    exists. *)
Lemma apply_control_assign (a : actor_id) (r : ref) (f : VehicleControl -> VehicleControl)
    (w : World) (c : VehicleControl) :
  objects w !! r = Some c ->
  objects (apply_control a r (assign r f w)) !! r = Some (f c)
  /\ dom (objects (apply_control a r (assign r f w))) = dom (objects w)
  /\ received (actors (apply_control a r (assign r f w)) a) = (r, f c) :: received (actors w a).
Proof.
  intros Hc. unfold apply_control, assign; simpl.
  rewrite lookup_alter_eq, Hc; simpl.
  rewrite lookup_alter_eq, Hc, fn_lookup_insert; simpl.
  split; [reflexivity|]. split; [apply dom_alter_L | reflexivity].
Qed.

(** ** Action nodes: one step *)

Lemma untouched_set_actuation (n : ActionNode) (q : Q) (c : VehicleControl) :
  untouched n c -> untouched n (set_actuation n q c).
Proof. destruct n; unfold untouched; simpl; tauto. Qed.

Lemma actuation_set_actuation (n : ActionNode) (q : Q) (c : VehicleControl) :
  actuation n (set_actuation n q c) = q.
Proof. destruct n; reflexivity. Qed.

Lemma action_init_fresh (args : ActionArgs) (w : World) :
  let n := fst (action_init args w) in
  objects w !! action_control n = None
  /\ objects (snd (action_init args w)) = <[action_control n := VehicleControl_new]> (objects w)
  /\ actors (snd (action_init args w)) = actors w.
Proof.
  destruct args; simpl; apply (new_VehicleControl_fresh w).
Qed.

Section ActionSteps.
Variable sqrt : Q -> Q.

Lemma action_update_step (n : ActionNode) (w : World) (c : VehicleControl) :
  objects w !! action_control n = Some c ->
  exists q : Q,
    objects (snd (action_update sqrt n w)) !! action_control n = Some (set_actuation n q c)
    /\ dom (objects (snd (action_update sqrt n w))) = dom (objects w)
    /\ received (actors (snd (action_update sqrt n w)) (action_vehicle n))
       = (action_control n, set_actuation n q c) :: received (actors w (action_vehicle n))
    /\ (fst (action_update sqrt n w) = RUNNING \/ fst (action_update sqrt n w) = SUCCESS)
    /\ (fst (action_update sqrt n w) = SUCCESS -> q = 0).
Proof.
  intros Hc. destruct n as [self|self|self]; simpl in *.
  - unfold AccelerateToVelocity.update.
    destruct (Qltb _ _); simpl.
    + exists (AccelerateToVelocity.throttle_value self).
      destruct (apply_control_assign (AccelerateToVelocity.vehicle self) _
                  (set_throttle (AccelerateToVelocity.throttle_value self)) w c Hc)
        as (H1 & H2 & H3).
      repeat split; auto. discriminate.
    + exists 0.
      destruct (apply_control_assign (AccelerateToVelocity.vehicle self) _
                  (set_throttle 0) w c Hc) as (H1 & H2 & H3).
      repeat split; auto.
  - unfold KeepVelocity.update.
    destruct (Qltb _ _); simpl.
    + exists 1.0.
      destruct (apply_control_assign (KeepVelocity.vehicle self) _
                  (set_throttle 1.0) w c Hc) as (H1 & H2 & H3).
      repeat split; auto. discriminate.
    + exists 0.0.
      destruct (apply_control_assign (KeepVelocity.vehicle self) _
                  (set_throttle 0.0) w c Hc) as (H1 & H2 & H3).
      repeat split; auto. discriminate.
  - unfold StopVehicle.update.
    destruct (Qgtb _ _); simpl.
    + exists (StopVehicle.brake_value self).
      destruct (apply_control_assign (StopVehicle.vehicle self) _
                  (set_brake (StopVehicle.brake_value self)) w c Hc) as (H1 & H2 & H3).
      repeat split; auto. discriminate.
    + exists 0.
      destruct (apply_control_assign (StopVehicle.vehicle self) _
                  (set_brake 0) w c Hc) as (H1 & H2 & H3).
      repeat split; auto.
Qed.

Lemma action_terminate_step (n : ActionNode) (new_status : Status) (w : World)
    (c : VehicleControl) :
  objects w !! action_control n = Some c ->
  exists (c' : VehicleControl) (new : list (ref * VehicleControl)),
    objects (action_terminate n new_status w) !! action_control n = Some c'
    /\ dom (objects (action_terminate n new_status w)) = dom (objects w)
    /\ received (actors (action_terminate n new_status w) (action_vehicle n))
       = new ++ received (actors w (action_vehicle n))
    /\ (new = [] \/ new = [(action_control n, c')])
    /\ (c' = c \/ c' = set_actuation n 0.0 c).
Proof.
  intros Hc. destruct n as [self|self|self]; simpl in *.
  - exists c, []. repeat split; auto.
  - unfold KeepVelocity.terminate.
    destruct (apply_control_assign (KeepVelocity.vehicle self) _
                (set_throttle 0.0) w c Hc) as (H1 & H2 & H3).
    exists (set_throttle 0.0 c), [(KeepVelocity.control self, set_throttle 0.0 c)].
    repeat split; auto.
  - exists c, []. repeat split; auto.
Qed.

Lemma run_tick (n : ActionNode) (l : Location) (v : Vector3D) (calls : list Call) (w : World) :
  let w' := snd (action_update sqrt n (move (action_vehicle n) l v w)) in
  fst (run sqrt n (Tick l v :: calls) w)
  = fst (action_update sqrt n (move (action_vehicle n) l v w)) :: fst (run sqrt n calls w')
  /\ snd (run sqrt n (Tick l v :: calls) w) = snd (run sqrt n calls w').
Proof.
  simpl. destruct (action_update sqrt n (move (action_vehicle n) l v w)) as [s w1].
  simpl. destruct (run sqrt n calls w1); split; reflexivity.
Qed.

(** The control object of a node stays in the store, with the fields the
    node does not drive untouched; no object is created or deleted; the
    actor receives only commands that carry this object. *)
Lemma run_invariant (n : ActionNode) (calls : list Call) :
  forall (w : World) (c : VehicleControl),
    objects w !! action_control n = Some c ->
    untouched n c ->
    exists (c' : VehicleControl) (new : list (ref * VehicleControl)),
      objects (snd (run sqrt n calls w)) !! action_control n = Some c'
      /\ untouched n c'
      /\ dom (objects (snd (run sqrt n calls w))) = dom (objects w)
      /\ received (actors (snd (run sqrt n calls w)) (action_vehicle n))
         = new ++ received (actors w (action_vehicle n))
      /\ Forall (fun p => fst p = action_control n /\ untouched n (snd p)) new.
Proof.
  induction calls as [|[l v|new_status] calls IH]; intros w c Hc Hu.
  - exists c, []. simpl. split; [exact Hc|]. split; [exact Hu|]. repeat split; auto.
  - destruct (run_tick n l v calls w) as [_ ->].
    set (w1 := move (action_vehicle n) l v w).
    destruct (action_update_step n w1 c Hc) as (q & H1 & H2 & H3 & _).
    destruct (IH _ _ H1 (untouched_set_actuation n q c Hu))
      as (c' & new & I1 & I2 & I3 & I4 & I5).
    exists c', (new ++ [(action_control n, set_actuation n q c)]).
    split; [exact I1|]. split; [exact I2|].
    split; [rewrite I3, H2; reflexivity|].
    split.
    + rewrite I4, H3. unfold w1. rewrite received_move, <- app_assoc. reflexivity.
    + apply Forall_app. split; [exact I5|].
      constructor; [|constructor]. simpl. split; [reflexivity|].
      now apply untouched_set_actuation.
  - simpl.
    destruct (action_terminate_step n new_status w c Hc)
      as (c1 & new1 & H1 & H2 & H3 & H4 & H5).
    assert (Hu1 : untouched n c1).
    { destruct H5 as [->| ->]; [exact Hu | now apply untouched_set_actuation]. }
    destruct (IH _ _ H1 Hu1) as (c' & new & I1 & I2 & I3 & I4 & I5).
    exists c', (new ++ new1).
    split; [exact I1|]. split; [exact I2|].
    split; [rewrite I3, H2; reflexivity|].
    split.
    + rewrite I4, H3, <- app_assoc. reflexivity.
    + apply Forall_app. split; [exact I5|].
      destruct H4 as [->| ->]; [constructor|].
      constructor; [|constructor]. simpl. split; [reflexivity | exact Hu1].
Qed.

End ActionSteps.

(** ** Action nodes: runs *)

Lemma untouched_new (n : ActionNode) : untouched n VehicleControl_new.
Proof. destruct n; repeat split. Qed.

Section ActionProperties.
Variable sqrt : Q -> Q.

(** The control object after construction and any run. *)
Lemma run_from_init (args : ActionArgs) (w0 : World) (calls : list Call) :
  let n := fst (action_init args w0) in
  let w := snd (run sqrt n calls (snd (action_init args w0))) in
  exists (c : VehicleControl) (new : list (ref * VehicleControl)),
    objects w !! action_control n = Some c
    /\ untouched n c
    /\ dom (objects w) = dom (objects (snd (action_init args w0)))
    /\ received (actors w (action_vehicle n)) = new ++ received (actors w0 (action_vehicle n))
    /\ Forall (fun p => fst p = action_control n /\ untouched n (snd p)) new.
Proof.
  intros n w.
  destruct (action_init_fresh args w0) as (_ & Hobj & Hact). fold n in Hobj.
  assert (Hc : objects (snd (action_init args w0)) !! action_control n
               = Some VehicleControl_new)
    by (rewrite Hobj; apply lookup_insert_eq).
  destruct (run_invariant sqrt n calls _ _ Hc (untouched_new n))
    as (c & new & H1 & H2 & H3 & H4 & H5).
  exists c, new. rewrite Hact in H4. auto.
Qed.

(** C8. An action node builds its control object once, in [__init__]: one
    new object enters the store, and no run of ticks and terminations
    creates or deletes an object afterwards.  From every state such a run
    reaches, [update] passes that same object to [apply_control] exactly
    once, on the SUCCESS tick as on any other, and on the SUCCESS tick the
    command carries the actuation value 0 (throttle for
    AccelerateToVelocity, brake for StopVehicle). *)
Theorem action_nodes_one_control_object (args : ActionArgs) (w0 : World)
    (calls : list Call) (l : Location) (v : Vector3D) :
  let n := fst (action_init args w0) in
  let w1 := snd (action_init args w0) in
  let w := snd (run sqrt n calls w1) in
  let tick := action_update sqrt n (move (action_vehicle n) l v w) in
  (objects w0 !! action_control n = None
   /\ objects w1 = <[action_control n := VehicleControl_new]> (objects w0))
  /\ dom (objects w) = dom (objects w1)
  /\ dom (objects (snd tick)) = dom (objects w1)
  /\ exists c : VehicleControl,
       objects (snd tick) !! action_control n = Some c
       /\ received (actors (snd tick) (action_vehicle n))
          = (action_control n, c) :: received (actors w (action_vehicle n))
       /\ (fst tick = SUCCESS -> actuation n c = 0).
Proof.
  intros n w1 w tick.
  destruct (action_init_fresh args w0) as (Hnone & Hobj & _).
  destruct (run_from_init args w0 calls) as (c & new & H1 & _ & H3 & _).
  fold n w1 w in Hnone, Hobj, H1, H3.
  destruct (action_update_step sqrt n (move (action_vehicle n) l v w) c H1)
    as (q & S1 & S2 & S3 & _ & S5).
  fold tick in S1, S2, S3, S5.
  split; [split; assumption|]. split; [exact H3|].
  split; [rewrite S2; exact H3|].
  exists (set_actuation n q c). split; [exact S1|].
  split; [rewrite S3, received_move; reflexivity|].
  intros Hs. rewrite actuation_set_actuation. now apply S5.
Qed.

(** C10. In every command an action node sends to its actor, over any run
    of ticks and terminations, and in its control object itself, the fields
    the node does not drive keep the values of a new
    [carla.VehicleControl]: the brake for AccelerateToVelocity and
    KeepVelocity, the throttle for StopVehicle, and steer, hand_brake and
    reverse for all three. *)
Theorem action_nodes_touch_own_field_only (args : ActionArgs) (w0 : World)
    (calls : list Call) :
  let n := fst (action_init args w0) in
  let w := snd (run sqrt n calls (snd (action_init args w0))) in
  exists (c : VehicleControl) (new : list (ref * VehicleControl)),
    objects w !! action_control n = Some c
    /\ untouched n c
    /\ received (actors w (action_vehicle n)) = new ++ received (actors w0 (action_vehicle n))
    /\ Forall (fun p => fst p = action_control n /\ untouched n (snd p)) new.
Proof.
  intros n w.
  destruct (run_from_init args w0 calls) as (c & new & H1 & H2 & _ & H4 & H5).
  exists c, new. auto.
Qed.

Lemma KeepVelocity_run_running (self : KeepVelocity.t) (calls : list Call) :
  forall w : World, Forall (fun s => s = RUNNING) (fst (run sqrt (Keep self) calls w)).
Proof.
  induction calls as [|[l v|new_status] calls IH]; intros w.
  - constructor.
  - destruct (run_tick sqrt (Keep self) l v calls w) as [-> _].
    constructor; [reflexivity | apply IH].
  - simpl. apply IH.
Qed.

(** C9. [KeepVelocity.update] returns RUNNING on every tick of every run,
    never SUCCESS or FAILURE; the command of a tick carries the throttle
    1.0 when speed < target velocity and 0.0 otherwise; [terminate], with
    any status, sets the throttle to 0 and sends that command to the
    actor. *)
Theorem KeepVelocity_always_running (vehicle : actor_id) (target_velocity : Q)
    (w0 : World) (calls : list Call) (l : Location) (v : Vector3D) (new_status : Status) :
  let self := fst (KeepVelocity.__init__ vehicle target_velocity w0) in
  let w1 := snd (KeepVelocity.__init__ vehicle target_velocity w0) in
  let w := snd (run sqrt (Keep self) calls w1) in
  let moved := move vehicle l v w in
  let speed := calculate_velocity sqrt (actors moved vehicle) in
  let tick := KeepVelocity.update sqrt self moved in
  let stopped := KeepVelocity.terminate self new_status w in
  Forall (fun s => s = RUNNING) (fst (run sqrt (Keep self) calls w1))
  /\ fst tick = RUNNING
  /\ (exists c : VehicleControl,
        received (actors (snd tick) vehicle)
          = (KeepVelocity.control self, c) :: received (actors w vehicle)
        /\ (speed < target_velocity -> throttle c = 1.0)
        /\ (target_velocity <= speed -> throttle c = 0.0))
  /\ (exists c : VehicleControl,
        received (actors stopped vehicle)
          = (KeepVelocity.control self, c) :: received (actors w vehicle)
        /\ commanded (actors stopped vehicle) = c
        /\ objects stopped !! KeepVelocity.control self = Some c
        /\ throttle c == 0).
Proof.
  intros self w1 w moved speed tick stopped.
  split; [apply KeepVelocity_run_running|]. split; [reflexivity|].
  destruct (run_from_init (KeepArgs vehicle target_velocity) w0 calls)
    as (c & new & H1 & _). simpl in H1. fold self w1 w in H1.
  split.
  - unfold tick, KeepVelocity.update.
    change (KeepVelocity.vehicle self) with vehicle.
    change (KeepVelocity.target_velocity self) with target_velocity.
    fold speed. cbv zeta.
    destruct (Qltb_spec speed target_velocity) as [Hlt|Hge]; cbn [snd].
    + destruct (apply_control_assign vehicle (KeepVelocity.control self)
                  (set_throttle 1.0) moved c H1) as (_ & _ & H).
      exists (set_throttle 1.0 c). rewrite H. unfold moved. rewrite received_move.
      split; [reflexivity|]. split; [reflexivity | lra].
    + destruct (apply_control_assign vehicle (KeepVelocity.control self)
                  (set_throttle 0.0) moved c H1) as (_ & _ & H).
      exists (set_throttle 0.0 c). rewrite H. unfold moved. rewrite received_move.
      split; [reflexivity|]. split; [lra | reflexivity].
  - destruct (apply_control_assign vehicle (KeepVelocity.control self)
                (set_throttle 0.0) w c H1) as (Hobj & _ & H).
    exists (set_throttle 0.0 c). unfold stopped, KeepVelocity.terminate, commanded.
    cbv zeta. change (KeepVelocity.vehicle self) with vehicle. rewrite H.
    split; [reflexivity|]. split; [reflexivity|]. split; [exact Hobj | reflexivity].
Qed.

End ActionProperties.

Lemma action_nodes_one_control_object_witness :
  let n := fst (action_init (StopArgs 0%nat 1) empty_world) in
  let w := snd (run Qsqrt n [Tick origin (mkVector3D 10 0 0)]
                  (snd (action_init (StopArgs 0%nat 1) empty_world))) in
  let tick := action_update Qsqrt n (move 0%nat origin at_rest w) in
  fst tick = SUCCESS
  /\ exists c : VehicleControl,
       received (actors (snd tick) 0%nat) = (action_control n, c) :: received (actors w 0%nat)
       /\ actuation n c = 0.
Proof.
  intros n w tick. split; [vm_compute; reflexivity|].
  destruct (action_nodes_one_control_object Qsqrt (StopArgs 0%nat 1) empty_world
              [Tick origin (mkVector3D 10 0 0)] origin at_rest)
    as (_ & _ & _ & c & _ & Hr & H0).
  exists c. split; [exact Hr|]. apply H0. vm_compute; reflexivity.
Defined.

Lemma KeepVelocity_always_running_witness :
  let self := fst (KeepVelocity.__init__ 0%nat 5 empty_world) in
  let w1 := snd (KeepVelocity.__init__ 0%nat 5 empty_world) in
  let slow := KeepVelocity.update Qsqrt self (move 0%nat origin (mkVector3D 1 0 0) w1) in
  let fast := KeepVelocity.update Qsqrt self (move 0%nat origin (mkVector3D 10 0 0) w1) in
  (exists c : VehicleControl,
     received (actors (snd slow) 0%nat) = [(KeepVelocity.control self, c)]
     /\ throttle c = 1.0)
  /\ (exists c : VehicleControl,
     received (actors (snd fast) 0%nat) = [(KeepVelocity.control self, c)]
     /\ throttle c = 0.0).
Proof.
  intros self w1 slow fast. split.
  - destruct (KeepVelocity_always_running Qsqrt 0%nat 5 empty_world []
                origin (mkVector3D 1 0 0) INVALID) as (_ & _ & (c & Hr & Hlt & _) & _).
    exists c. split; [exact Hr|]. apply Hlt. vm_compute; reflexivity.
  - destruct (KeepVelocity_always_running Qsqrt 0%nat 5 empty_world []
                origin (mkVector3D 10 0 0) INVALID) as (_ & _ & (c & Hr & _ & Hge) & _).
    exists c. split; [exact Hr|]. apply Hge. vm_compute; discriminate.
Defined.

(** ** Termination of StopVehicle and AccelerateToVelocity *)

(** C1, on a run where it fails.  A StopVehicle with brake value 1 ticked
    once at speed 10 returns RUNNING and commands the brake 1; after
    [terminate], with any status, the actor is still commanded the brake 1.
    An AccelerateToVelocity with throttle value 0.5 and target velocity 20
    ticked once at speed 10 is terminated with the throttle 0.5 still
    commanded.  KeepVelocity terminated after the same tick commands the
    throttle 0. *)
Theorem terminate_leaves_actuation_commanded (new_status : Status) :
  let calls := [Tick origin (mkVector3D 10 0 0); Terminate new_status] in
  let stop := action_init (StopArgs 0%nat 1) empty_world in
  let accelerate := action_init (AccelerateArgs 0%nat 0.5 20) empty_world in
  let keep := action_init (KeepArgs 0%nat 20) empty_world in
  (fst (run Qsqrt (fst stop) calls (snd stop)) = [RUNNING]
   /\ brake (commanded (actors (snd (run Qsqrt (fst stop) calls (snd stop))) 0%nat)) = 1)
  /\ (fst (run Qsqrt (fst accelerate) calls (snd accelerate)) = [RUNNING]
   /\ throttle (commanded (actors (snd (run Qsqrt (fst accelerate) calls (snd accelerate))) 0%nat))
      = 0.5)
  /\ (fst (run Qsqrt (fst keep) calls (snd keep)) = [RUNNING]
   /\ throttle (commanded (actors (snd (run Qsqrt (fst keep) calls (snd keep))) 0%nat))
      = 0.0).
Proof. vm_compute. repeat split. Qed.

(* ------------------------------------------------------------------ *)
(** * Further properties of the condition nodes *)

Lemma Qdiv_nonneg (d v : Q) : 0 <= d -> 0 < v -> 0 <= d / v.
Proof. intros Hd Hv. apply Qle_shift_div_l; [exact Hv | lra]. Qed.

Lemma Qsqrt_nonneg (q : Q) : 0 <= Qsqrt q.
Proof.
  unfold Qsqrt, Qle; simpl. pose proof (Z.sqrt_nonneg (Qnum (Qred q))). lia.
Qed.

Lemma Qsqrt_comp (p q : Q) : p == q -> Qsqrt p == Qsqrt q.
Proof. intros H. unfold Qsqrt. rewrite (Qred_complete p q H). reflexivity. Qed.

Lemma Qgtb_comp (x x' y : Q) : x == x' -> Qgtb x y = Qgtb x' y.
Proof. intros H. unfold Qgtb, Qltb. now rewrite H. Qed.

(** X1. A region whose bounds cross on one axis is empty:
    [InTriggerRegion.update] returns RUNNING wherever the actor is. *)
Theorem InTriggerRegion_empty_region (self : InTriggerRegion.t) (w : World) :
  InTriggerRegion.max_x self < InTriggerRegion.min_x self
  \/ InTriggerRegion.max_y self < InTriggerRegion.min_y self ->
  InTriggerRegion.update self w = RUNNING.
Proof.
  intros H. unfold InTriggerRegion.update.
  cases_Q; simpl; try reflexivity. exfalso. lra.
Qed.

Lemma InTriggerRegion_empty_region_witness :
  InTriggerRegion.update (InTriggerRegion.__init__ 0%nat 1 (-1) (-1) 1) standing_scene = RUNNING.
Proof.
  apply (InTriggerRegion_empty_region
           (InTriggerRegion.__init__ 0%nat 1 (-1) (-1) 1) standing_scene).
  left. reflexivity.
Defined.

Section ConditionExtras.
Variable sqrt : Q -> Q.

Lemma calculate_velocity_horizontal (v v' : Vehicle) :
  vec_x (get_velocity v) = vec_x (get_velocity v') ->
  vec_y (get_velocity v) = vec_y (get_velocity v') ->
  calculate_velocity sqrt v = calculate_velocity sqrt v'.
Proof. intros Hx Hy. unfold calculate_velocity. now rewrite Hx, Hy. Qed.

(** X2. The distance trigger between two vehicles does not depend on which of
    them is passed as the ego, provided [sqrt] gives equal results on equal
    numbers. *)
Theorem InTriggerDistanceToVehicle_symmetric
    (sqrt_comp : forall p q : Q, p == q -> sqrt p == sqrt q)
    (self : InTriggerDistanceToVehicle.t) (w : World) :
  let swapped :=
    InTriggerDistanceToVehicle.__init__
      (InTriggerDistanceToVehicle.ego_vehicle self)
      (InTriggerDistanceToVehicle.other_vehicle self)
      (InTriggerDistanceToVehicle.distance self) in
  InTriggerDistanceToVehicle.update sqrt swapped w
  = InTriggerDistanceToVehicle.update sqrt self w.
Proof.
  intros swapped. unfold InTriggerDistanceToVehicle.update; simpl.
  set (l := get_location (actors w (InTriggerDistanceToVehicle.ego_vehicle self))).
  set (o := get_location (actors w (InTriggerDistanceToVehicle.other_vehicle self))).
  assert (E : calculate_distance sqrt o l == calculate_distance sqrt l o).
  { unfold calculate_distance, Location_distance. apply sqrt_comp. ring. }
  now rewrite (Qgtb_comp _ _ _ E).
Qed.

End ConditionExtras.

Lemma InTriggerDistanceToVehicle_symmetric_witness :
  InTriggerDistanceToVehicle.update Qsqrt
    (InTriggerDistanceToVehicle.__init__ 0%nat 1%nat 150) closing_scene
  = InTriggerDistanceToVehicle.update Qsqrt
      (InTriggerDistanceToVehicle.__init__ 1%nat 0%nat 150) closing_scene.
Proof.
  exact (InTriggerDistanceToVehicle_symmetric Qsqrt Qsqrt_comp
           (InTriggerDistanceToVehicle.__init__ 1%nat 0%nat 150) closing_scene).
Defined.

Section ConditionOrder.
Variable sqrt : Q -> Q.

Lemma spec_time_to_location_value (d v : Q) :
  (EPSILON < v /\ spec_time_to_location d v = d / v)
  \/ (v <= EPSILON /\ spec_time_to_location d v = 10000).
Proof.
  unfold spec_time_to_location. destruct (Qle_bool_spec v EPSILON); auto.
Qed.

Lemma satisfied_relaxes (n n' : ConditionNode) (w : World) :
  relaxes n n' -> satisfied sqrt n w -> satisfied sqrt n' w.
Proof.
  destruct n as [s|s|s|s|s|s], n' as [s'|s'|s'|s'|s'|s']; simpl; try contradiction.
  - intros (-> & H1 & H2 & H3 & H4). lra.
  - intros (-> & -> & H). lra.
  - intros (-> & -> & H). lra.
  - intros (-> & H). lra.
  - intros (-> & -> & H). lra.
  - intros (-> & -> & H). lra.
Qed.

(** X5. Widening the region, enlarging the distance, raising the target
    velocity or enlarging the time budget of a condition never turns a
    SUCCESS into a RUNNING: where the condition returns SUCCESS, the relaxed
    one returns SUCCESS too. *)
Theorem condition_relaxed_keeps_success (n n' : ConditionNode) (w : World) :
  relaxes n n' ->
  outcome (condition_update sqrt n w) = Some SUCCESS ->
  outcome (condition_update sqrt n' w) = Some SUCCESS.
Proof.
  intros Hr Hs.
  apply (condition_update_iff sqrt n' w).
  apply (satisfied_relaxes n n' w Hr).
  now apply (condition_update_iff sqrt n w).
Qed.

(** X6. No condition reads the vertical velocity of an actor: on two worlds
    where every actor has the same position and the same horizontal
    velocity, [update] returns the same status after the same divisions. *)
Theorem condition_ignores_vertical_velocity (n : ConditionNode) (w w' : World) :
  same_horizontal_motion w w' ->
  condition_update sqrt n w = condition_update sqrt n w'.
Proof.
  intros H.
  assert (Hl : forall a, get_location (actors w a) = get_location (actors w' a))
    by (intros a; apply H).
  assert (Hv : forall a, calculate_velocity sqrt (actors w a)
                         = calculate_velocity sqrt (actors w' a))
    by (intros a; apply calculate_velocity_horizontal; apply H).
  destruct n as [s|s|s|s|s|s]; simpl.
  - unfold InTriggerRegion.update. now rewrite Hl.
  - unfold InTriggerDistanceToVehicle.update. now rewrite !Hl.
  - unfold InTriggerDistanceToLocation.update. now rewrite Hl.
  - unfold TriggerVelocity.update. now rewrite Hv.
  - unfold InTimeToArrivalToLocation.update, InTimeToArrivalToLocation.time_to_arrival.
    now rewrite Hl, Hv.
  - unfold InTimeToArrivalToVehicle.update, InTimeToArrivalToVehicle.time_to_arrival.
    now rewrite !Hl, !Hv.
Qed.

(** X7. A negative distance or time budget is never met, provided [sqrt] returns
    no negative number: the two distance triggers and the two
    time-to-arrival triggers then return RUNNING on every world. *)
Theorem negative_threshold_never_met
    (sqrt_nonneg : forall q : Q, 0 <= sqrt q) (n : ConditionNode) (w : World) :
  match n with
  | DistanceToVehicle s => InTriggerDistanceToVehicle.distance s < 0
  | DistanceToLocation s => InTriggerDistanceToLocation.distance s < 0
  | TimeToLocation s => InTimeToArrivalToLocation.time s < 0
  | TimeToVehicle s => InTimeToArrivalToVehicle.time s < 0
  | Region _ | Velocity _ => False
  end ->
  outcome (condition_update sqrt n w) = Some RUNNING.
Proof.
  destruct n as [s|s|s|s|s|s]; simpl; try contradiction; intros Hneg.
  - apply (condition_update_iff sqrt (DistanceToVehicle s) w). simpl. intros Hle.
    unfold calculate_distance, Location_distance in Hle.
    match type of Hle with sqrt ?x <= _ => pose proof (sqrt_nonneg x) end. lra.
  - apply (condition_update_iff sqrt (DistanceToLocation s) w). simpl. intros Hle.
    unfold calculate_distance, Location_distance in Hle.
    match type of Hle with sqrt ?x <= _ => pose proof (sqrt_nonneg x) end. lra.
  - apply (condition_update_iff sqrt (TimeToLocation s) w). simpl.
    set (d := calculate_distance sqrt _ _). set (v := calculate_velocity sqrt _).
    assert (Hd : 0 <= d) by apply sqrt_nonneg.
    pose proof EPSILON_pos.
    destruct (spec_time_to_location_value d v) as [[Hv ->]|[Hv ->]]; [|lra].
    pose proof (Qdiv_nonneg d v Hd). lra.
  - apply (condition_update_iff sqrt (TimeToVehicle s) w). simpl.
    set (d := calculate_distance sqrt _ _).
    set (ve := calculate_velocity sqrt (actors w (InTimeToArrivalToVehicle.ego_vehicle s))).
    set (vo := calculate_velocity sqrt (actors w (InTimeToArrivalToVehicle.other_vehicle s))).
    assert (Hd : 0 <= d) by apply sqrt_nonneg.
    unfold spec_time_to_vehicle. destruct (Qltb_spec vo ve) as [Hv|Hv]; [|lra].
    assert (Hpos : 0 < ve - vo) by lra.
    assert (Hd2 : 0 <= 2 * d) by lra.
    pose proof (Qdiv_nonneg (2 * d) (ve - vo) Hd2 Hpos). lra.
Qed.

End ConditionOrder.

Lemma condition_relaxed_keeps_success_witness :
  outcome (condition_update Qsqrt
             (TimeToVehicle (InTimeToArrivalToVehicle.__init__ 1%nat 0%nat 30))
             closing_scene) = Some SUCCESS.
Proof.
  apply (condition_relaxed_keeps_success Qsqrt
           (TimeToVehicle (InTimeToArrivalToVehicle.__init__ 1%nat 0%nat 25))
           (TimeToVehicle (InTimeToArrivalToVehicle.__init__ 1%nat 0%nat 30))
           closing_scene).
  - simpl. repeat split. discriminate.
  - vm_compute; reflexivity.
Defined.

Lemma condition_ignores_vertical_velocity_witness :
  let falling := scene origin (mkVector3D 10 0 (-7)) (mkLocation 100 0 0) (mkVector3D 0 0 3) in
  let n := TimeToVehicle (InTimeToArrivalToVehicle.__init__ 1%nat 0%nat 25) in
  condition_update Qsqrt n falling = condition_update Qsqrt n closing_scene.
Proof.
  intros falling n.
  apply (condition_ignores_vertical_velocity Qsqrt n falling closing_scene).
  intros [|[|a]]; repeat split.
Defined.

Lemma negative_threshold_never_met_witness :
  outcome (condition_update Qsqrt
             (DistanceToLocation (InTriggerDistanceToLocation.__init__ 0%nat origin (-1)))
             standing_scene) = Some RUNNING.
Proof.
  apply (negative_threshold_never_met Qsqrt Qsqrt_nonneg
           (DistanceToLocation (InTriggerDistanceToLocation.__init__ 0%nat origin (-1)))
           standing_scene).
  reflexivity.
Defined.

(* ------------------------------------------------------------------ *)
(** * Further properties of the action nodes *)

Lemma actors_move_ne (a b : actor_id) (l : Location) (v : Vector3D) (w : World) :
  a <> b -> actors (move a l v w) b = actors w b.
Proof. intros H. unfold move; simpl. now rewrite fn_lookup_insert_ne. Qed.

Lemma actors_apply_control_ne (a b : actor_id) (r : ref) (w : World) :
  a <> b -> actors (apply_control a r w) b = actors w b.
Proof.
  intros H. unfold apply_control. destruct (objects w !! r); [|reflexivity].
  simpl. now rewrite fn_lookup_insert_ne.
Qed.

Lemma get_velocity_move (a : actor_id) (l : Location) (v : Vector3D) (w : World) :
  get_velocity (actors (move a l v w) a) = v.
Proof. unfold move; simpl. now rewrite fn_lookup_insert. Qed.

Section ActionTicks.
Variable sqrt : Q -> Q.

Lemma accelerate_update_cases (self : AccelerateToVelocity.t) (w : World)
    (c : VehicleControl) :
  objects w !! AccelerateToVelocity.control self = Some c ->
  let a := AccelerateToVelocity.vehicle self in
  let speed := calculate_velocity sqrt (actors w a) in
  let tick := AccelerateToVelocity.update sqrt self w in
  (speed < AccelerateToVelocity.target_velocity self
   /\ fst tick = RUNNING
   /\ received (actors (snd tick) a)
      = (AccelerateToVelocity.control self,
         set_throttle (AccelerateToVelocity.throttle_value self) c) :: received (actors w a))
  \/ (AccelerateToVelocity.target_velocity self <= speed
   /\ fst tick = SUCCESS
   /\ received (actors (snd tick) a)
      = (AccelerateToVelocity.control self, set_throttle 0 c) :: received (actors w a)).
Proof.
  intros Hc a speed tick. unfold tick, AccelerateToVelocity.update. fold a speed.
  destruct (Qltb_spec speed (AccelerateToVelocity.target_velocity self)) as [H|H];
    [left | right]; (split; [exact H|]); (split; [reflexivity|]); cbn [snd].
  - apply (apply_control_assign a _ _ w c Hc).
  - apply (apply_control_assign a _ _ w c Hc).
Qed.

Lemma stop_update_cases (self : StopVehicle.t) (w : World) (c : VehicleControl) :
  objects w !! StopVehicle.control self = Some c ->
  let a := StopVehicle.vehicle self in
  let speed := calculate_velocity sqrt (actors w a) in
  let tick := StopVehicle.update sqrt self w in
  (EPSILON < speed
   /\ fst tick = RUNNING
   /\ received (actors (snd tick) a)
      = (StopVehicle.control self, set_brake (StopVehicle.brake_value self) c)
        :: received (actors w a))
  \/ (speed <= EPSILON
   /\ fst tick = SUCCESS
   /\ received (actors (snd tick) a)
      = (StopVehicle.control self, set_brake 0 c) :: received (actors w a)).
Proof.
  intros Hc a speed tick. unfold tick, StopVehicle.update. fold a speed.
  destruct (Qgtb_spec speed EPSILON) as [H|H];
    [left | right]; (split; [exact H|]); (split; [reflexivity|]); cbn [snd].
  - apply (apply_control_assign a _ _ w c Hc).
  - apply (apply_control_assign a _ _ w c Hc).
Qed.

(** X8. From any state a run of an AccelerateToVelocity reaches, a tick returns
    RUNNING exactly when speed < target velocity and SUCCESS exactly when
    speed >= target velocity; the actor is then commanded the throttle
    value of the node on a RUNNING tick and the throttle 0 on a SUCCESS
    tick. *)
Theorem AccelerateToVelocity_tick (vehicle : actor_id) (throttle_value target_velocity : Q)
    (w0 : World) (calls : list Call) (l : Location) (v : Vector3D) :
  let self := fst (AccelerateToVelocity.__init__ vehicle throttle_value target_velocity w0) in
  let w1 := snd (AccelerateToVelocity.__init__ vehicle throttle_value target_velocity w0) in
  let w := snd (run sqrt (Accelerate self) calls w1) in
  let moved := move vehicle l v w in
  let speed := calculate_velocity sqrt (actors moved vehicle) in
  let tick := AccelerateToVelocity.update sqrt self moved in
  (fst tick = RUNNING <-> speed < target_velocity)
  /\ (fst tick = SUCCESS <-> target_velocity <= speed)
  /\ (speed < target_velocity -> throttle (commanded (actors (snd tick) vehicle)) = throttle_value)
  /\ (target_velocity <= speed -> throttle (commanded (actors (snd tick) vehicle)) = 0).
Proof.
  intros self w1 w moved speed tick.
  destruct (run_from_init sqrt (AccelerateArgs vehicle throttle_value target_velocity) w0 calls)
    as (c & new & H1 & _). simpl in H1. fold self w1 w in H1.
  destruct (accelerate_update_cases self moved c H1) as [(Hs & Ht & Hr)|(Hs & Ht & Hr)];
    change (AccelerateToVelocity.vehicle self) with vehicle in *;
    change (AccelerateToVelocity.target_velocity self) with target_velocity in *;
    change (AccelerateToVelocity.throttle_value self) with throttle_value in *;
    fold speed in Hs; fold tick in Ht, Hr; unfold commanded; rewrite Ht, Hr; simpl.
  - repeat split; intros; try discriminate; try assumption; try reflexivity; lra.
  - repeat split; intros; try discriminate; try assumption; try reflexivity; lra.
Qed.

(** X9. From any state a run of a StopVehicle reaches, a tick returns RUNNING
    exactly when speed > epsilon and SUCCESS exactly when speed <= epsilon;
    the actor is then commanded the brake value of the node on a RUNNING
    tick and the brake 0 on a SUCCESS tick. *)
Theorem StopVehicle_tick (vehicle : actor_id) (brake_value : Q)
    (w0 : World) (calls : list Call) (l : Location) (v : Vector3D) :
  let self := fst (StopVehicle.__init__ vehicle brake_value w0) in
  let w1 := snd (StopVehicle.__init__ vehicle brake_value w0) in
  let w := snd (run sqrt (Stop self) calls w1) in
  let moved := move vehicle l v w in
  let speed := calculate_velocity sqrt (actors moved vehicle) in
  let tick := StopVehicle.update sqrt self moved in
  (fst tick = RUNNING <-> EPSILON < speed)
  /\ (fst tick = SUCCESS <-> speed <= EPSILON)
  /\ (EPSILON < speed -> brake (commanded (actors (snd tick) vehicle)) = brake_value)
  /\ (speed <= EPSILON -> brake (commanded (actors (snd tick) vehicle)) = 0).
Proof.
  intros self w1 w moved speed tick.
  destruct (run_from_init sqrt (StopArgs vehicle brake_value) w0 calls)
    as (c & new & H1 & _). simpl in H1. fold self w1 w in H1.
  destruct (stop_update_cases self moved c H1) as [(Hs & Ht & Hr)|(Hs & Ht & Hr)];
    change (StopVehicle.vehicle self) with vehicle in *;
    change (StopVehicle.brake_value self) with brake_value in *;
    fold speed in Hs; fold tick in Ht, Hr; unfold commanded; rewrite Ht, Hr; simpl.
  - repeat split; intros; try discriminate; try assumption; try reflexivity; lra.
  - repeat split; intros; try discriminate; try assumption; try reflexivity; lra.
Qed.

End ActionTicks.

Lemma AccelerateToVelocity_tick_witness :
  let self := fst (AccelerateToVelocity.__init__ 0%nat 0.5 20 empty_world) in
  let w1 := snd (AccelerateToVelocity.__init__ 0%nat 0.5 20 empty_world) in
  let tick := AccelerateToVelocity.update Qsqrt self (move 0%nat origin (mkVector3D 10 0 0) w1) in
  throttle (commanded (actors (snd tick) 0%nat)) = 0.5.
Proof.
  destruct (AccelerateToVelocity_tick Qsqrt 0%nat 0.5 20 empty_world []
              origin (mkVector3D 10 0 0)) as (_ & _ & H & _).
  apply H. vm_compute; reflexivity.
Defined.

Lemma StopVehicle_tick_witness :
  let self := fst (StopVehicle.__init__ 0%nat 1 empty_world) in
  let w1 := snd (StopVehicle.__init__ 0%nat 1 empty_world) in
  let tick := StopVehicle.update Qsqrt self (move 0%nat origin (mkVector3D 10 0 0) w1) in
  brake (commanded (actors (snd tick) 0%nat)) = 1.
Proof.
  destruct (StopVehicle_tick Qsqrt 0%nat 1 empty_world []
              origin (mkVector3D 10 0 0)) as (_ & _ & H & _).
  apply H. vm_compute; reflexivity.
Defined.

Section ActionRuns.
Variable sqrt : Q -> Q.

Lemma action_terminate_cases (n : ActionNode) (new_status : Status) (w : World)
    (c : VehicleControl) :
  objects w !! action_control n = Some c ->
  (commands_per_termination n = 0%nat /\ action_terminate n new_status w = w)
  \/ (commands_per_termination n = 1%nat
      /\ objects (action_terminate n new_status w) !! action_control n
         = Some (set_actuation n 0.0 c)
      /\ received (actors (action_terminate n new_status w) (action_vehicle n))
         = (action_control n, set_actuation n 0.0 c) :: received (actors w (action_vehicle n))).
Proof.
  intros Hc. destruct n as [self|self|self]; simpl in *.
  - left. split; reflexivity.
  - right. split; [reflexivity|]. unfold KeepVelocity.terminate.
    destruct (apply_control_assign (KeepVelocity.vehicle self) _
                (set_throttle 0.0) w c Hc) as (H1 & _ & H3).
    split; assumption.
  - left. split; reflexivity.
Qed.

Lemma run_counts (n : ActionNode) (calls : list Call) :
  forall (w : World) (c : VehicleControl),
    objects w !! action_control n = Some c ->
    length (fst (run sqrt n calls w)) = ticks_in calls
    /\ length (received (actors (snd (run sqrt n calls w)) (action_vehicle n)))
       = (length (received (actors w (action_vehicle n)))
          + ticks_in calls
          + commands_per_termination n * terminations_in calls)%nat.
Proof.
  unfold ticks_in, terminations_in.
  induction calls as [|[l v|new_status] calls IH]; intros w c Hc.
  - simpl. split; [reflexivity | lia].
  - destruct (run_tick sqrt n l v calls w) as [-> ->].
    destruct (action_update_step sqrt n (move (action_vehicle n) l v w) c Hc)
      as (q & H1 & _ & H3 & _).
    destruct (IH _ _ H1) as [I1 I2].
    rewrite I2, H3, received_move. simpl. rewrite I1. split; lia.
  - simpl run. simpl List.filter. simpl length.
    destruct (action_terminate_cases n new_status w c Hc) as [[E ->]|(E & H1 & H3)].
    + destruct (IH _ _ Hc) as [I1 I2]. rewrite I1, I2, E. split; lia.
    + destruct (IH _ _ H1) as [I1 I2]. rewrite I1, I2, H3, E. simpl. split; lia.
Qed.

(** X10. A run returns one status per tick, and the actor of the node receives
    exactly one command per tick, plus one per termination for
    KeepVelocity and none per termination for AccelerateToVelocity and
    StopVehicle. *)
Theorem run_command_count (args : ActionArgs) (w0 : World) (calls : list Call) :
  let n := fst (action_init args w0) in
  let w := snd (run sqrt n calls (snd (action_init args w0))) in
  length (fst (run sqrt n calls (snd (action_init args w0)))) = ticks_in calls
  /\ length (received (actors w (action_vehicle n)))
     = (length (received (actors w0 (action_vehicle n)))
        + ticks_in calls
        + commands_per_termination n * terminations_in calls)%nat.
Proof.
  intros n w.
  destruct (action_init_fresh args w0) as (_ & Hobj & Hact). fold n in Hobj.
  assert (Hc : objects (snd (action_init args w0)) !! action_control n
               = Some VehicleControl_new)
    by (rewrite Hobj; apply lookup_insert_eq).
  destruct (run_counts n calls _ _ Hc) as [H1 H2].
  rewrite Hact in H2. split; assumption.
Qed.

Lemma action_update_frame (n : ActionNode) (w : World) :
  (forall b, b <> action_vehicle n -> actors (snd (action_update sqrt n w)) b = actors w b)
  /\ (forall r, r <> action_control n ->
        objects (snd (action_update sqrt n w)) !! r = objects w !! r).
Proof.
  destruct n as [self|self|self]; simpl.
  - unfold AccelerateToVelocity.update. destruct (Qltb _ _); cbn [snd]; split; intros x Hx.
    all: try (rewrite actors_apply_control_ne by congruence; reflexivity).
    all: rewrite objects_apply_control; simpl; now rewrite lookup_alter_ne.
  - unfold KeepVelocity.update. cbv zeta. destruct (Qltb _ _); cbn [snd]; split; intros x Hx.
    all: try (rewrite actors_apply_control_ne by congruence; reflexivity).
    all: rewrite objects_apply_control; simpl; now rewrite lookup_alter_ne.
  - unfold StopVehicle.update. destruct (Qgtb _ _); cbn [snd]; split; intros x Hx.
    all: try (rewrite actors_apply_control_ne by congruence; reflexivity).
    all: rewrite objects_apply_control; simpl; now rewrite lookup_alter_ne.
Qed.

Lemma action_terminate_frame (n : ActionNode) (new_status : Status) (w : World) :
  (forall b, b <> action_vehicle n -> actors (action_terminate n new_status w) b = actors w b)
  /\ (forall r, r <> action_control n ->
        objects (action_terminate n new_status w) !! r = objects w !! r).
Proof.
  destruct n as [self|self|self]; simpl; try (split; reflexivity).
  unfold KeepVelocity.terminate. cbv zeta. split; intros x Hx.
  - rewrite actors_apply_control_ne by congruence. reflexivity.
  - rewrite objects_apply_control. simpl. now rewrite lookup_alter_ne.
Qed.

Lemma run_frame (n : ActionNode) (calls : list Call) :
  forall w : World,
    (forall b, b <> action_vehicle n -> actors (snd (run sqrt n calls w)) b = actors w b)
    /\ (forall r, r <> action_control n ->
          objects (snd (run sqrt n calls w)) !! r = objects w !! r).
Proof.
  induction calls as [|[l v|new_status] calls IH]; intros w.
  - split; reflexivity.
  - destruct (run_tick sqrt n l v calls w) as [_ ->].
    destruct (IH (snd (action_update sqrt n (move (action_vehicle n) l v w)))) as [I1 I2].
    destruct (action_update_frame n (move (action_vehicle n) l v w)) as [U1 U2].
    split; intros x Hx.
    + rewrite I1, U1 by assumption. apply actors_move_ne. congruence.
    + rewrite I2, U2 by assumption. reflexivity.
  - simpl. destruct (IH (action_terminate n new_status w)) as [I1 I2].
    destruct (action_terminate_frame n new_status w) as [T1 T2].
    split; intros x Hx.
    + rewrite I1, T1 by assumption. reflexivity.
    + rewrite I2, T2 by assumption. reflexivity.
Qed.

(** X11. A run of an action node, from any world, leaves every other actor as it
    was (position, velocity and received commands) and every other object
    of the store as it was. *)
Theorem run_leaves_others (n : ActionNode) (calls : list Call) (w : World)
    (b : actor_id) (r : ref) :
  b <> action_vehicle n ->
  r <> action_control n ->
  actors (snd (run sqrt n calls w)) b = actors w b
  /\ objects (snd (run sqrt n calls w)) !! r = objects w !! r.
Proof.
  intros Hb Hr. destruct (run_frame n calls w) as [H1 H2]. split; auto.
Qed.

(** X12. Two action nodes built one after the other hold different control
    objects, and no run of the second changes the control object of the
    first. *)
Theorem second_node_leaves_first_control (args1 args2 : ActionArgs) (w0 : World)
    (calls : list Call) :
  let n1 := fst (action_init args1 w0) in
  let w1 := snd (action_init args1 w0) in
  let n2 := fst (action_init args2 w1) in
  let w2 := snd (action_init args2 w1) in
  action_control n1 <> action_control n2
  /\ objects (snd (run sqrt n2 calls w2)) !! action_control n1 = Some VehicleControl_new.
Proof.
  intros n1 w1 n2 w2.
  destruct (action_init_fresh args1 w0) as (_ & Hobj1 & _).
  destruct (action_init_fresh args2 w1) as (Hnone2 & Hobj2 & _).
  fold n1 w1 in Hobj1. fold n2 w2 in Hnone2, Hobj2.
  assert (H1 : objects w1 !! action_control n1 = Some VehicleControl_new)
    by (rewrite Hobj1; apply lookup_insert_eq).
  assert (Hne : action_control n1 <> action_control n2)
    by (intros E; rewrite E in H1; congruence).
  split; [exact Hne|].
  destruct (run_frame n2 calls w2) as [_ F]. rewrite F by exact Hne.
  rewrite Hobj2, lookup_insert_ne by congruence. exact H1.
Qed.

End ActionRuns.

Lemma run_leaves_others_witness :
  let n := fst (action_init (StopArgs 0%nat 1) empty_world) in
  let w := snd (action_init (StopArgs 0%nat 1) empty_world) in
  actors (snd (run Qsqrt n [Tick origin (mkVector3D 10 0 0); Terminate FAILURE] w)) 1%nat
  = actors w 1%nat.
Proof.
  intros n w.
  apply (run_leaves_others Qsqrt n [Tick origin (mkVector3D 10 0 0); Terminate FAILURE] w
           1%nat 1%nat).
  - vm_compute. discriminate.
  - vm_compute. discriminate.
Defined.

Section ActionLifecycle.
Variable sqrt : Q -> Q.

(** X13. When a tick returns SUCCESS, the composite terminates the node right
    after it: whatever the status passed, the actor is then commanded the
    actuation 0 (throttle for AccelerateToVelocity, brake for
    StopVehicle). *)
Theorem terminate_after_success (args : ActionArgs) (w0 : World) (calls : list Call)
    (l : Location) (v : Vector3D) (new_status : Status) :
  let n := fst (action_init args w0) in
  let w := snd (run sqrt n calls (snd (action_init args w0))) in
  let tick := action_update sqrt n (move (action_vehicle n) l v w) in
  fst tick = SUCCESS ->
  actuation n (commanded (actors (action_terminate n new_status (snd tick)) (action_vehicle n)))
  = 0.
Proof.
  intros n w tick Hs.
  destruct (run_from_init sqrt args w0 calls) as (c & new & H1 & _).
  fold n w in H1.
  destruct (action_update_step sqrt n (move (action_vehicle n) l v w) c H1)
    as (q & S1 & _ & S3 & _ & S5).
  fold tick in S1, S3, S5.
  destruct (action_terminate_cases n new_status (snd tick) _ S1) as [[_ ->]|(E & _)].
  - unfold commanded. rewrite S3. rewrite actuation_set_actuation. now apply S5.
  - destruct n as [self|self|self]; try discriminate E.
    unfold tick in Hs. simpl in Hs. discriminate Hs.
Qed.

Lemma run_last_command (n : ActionNode) (calls : list Call) :
  forall (w : World) (c : VehicleControl),
    objects w !! action_control n = Some c ->
    exists c' : VehicleControl,
      objects (snd (run sqrt n calls w)) !! action_control n = Some c'
      /\ ((c' = c
           /\ received (actors (snd (run sqrt n calls w)) (action_vehicle n))
              = received (actors w (action_vehicle n)))
          \/ exists rest,
               received (actors (snd (run sqrt n calls w)) (action_vehicle n))
               = (action_control n, c') :: rest).
Proof.
  induction calls as [|[l v|new_status] calls IH]; intros w c Hc.
  - exists c. split; [exact Hc|]. left. split; reflexivity.
  - destruct (run_tick sqrt n l v calls w) as [_ ->].
    destruct (action_update_step sqrt n (move (action_vehicle n) l v w) c Hc)
      as (q & H1 & _ & H3 & _).
    destruct (IH _ _ H1) as (c' & I1 & [[E I2]|[rest I2]]);
      exists c'; (split; [exact I1|]); right.
    + rewrite I2, H3, E. eauto.
    + eauto.
  - simpl.
    destruct (action_terminate_cases n new_status w c Hc) as [[_ ->]|(_ & H1 & H3)].
    + apply (IH _ _ Hc).
    + destruct (IH _ _ H1) as (c' & I1 & [[E I2]|[rest I2]]);
        exists c'; (split; [exact I1|]); right.
      * rewrite I2, H3, E. eauto.
      * eauto.
Qed.

(** X14. The control object never runs ahead of the actor: after any run, either
    the node has sent nothing and its control object is still the new
    [carla.VehicleControl], or the latest command the actor received is the
    current value of the control object. *)
Theorem control_object_is_last_command (args : ActionArgs) (w0 : World)
    (calls : list Call) :
  let n := fst (action_init args w0) in
  let w := snd (run sqrt n calls (snd (action_init args w0))) in
  exists c : VehicleControl,
    objects w !! action_control n = Some c
    /\ ((c = VehicleControl_new
         /\ received (actors w (action_vehicle n)) = received (actors w0 (action_vehicle n)))
        \/ (commanded (actors w (action_vehicle n)) = c
            /\ exists rest,
                 received (actors w (action_vehicle n)) = (action_control n, c) :: rest)).
Proof.
  intros n w.
  destruct (action_init_fresh args w0) as (_ & Hobj & Hact). fold n in Hobj.
  assert (Hc : objects (snd (action_init args w0)) !! action_control n
               = Some VehicleControl_new)
    by (rewrite Hobj; apply lookup_insert_eq).
  destruct (run_last_command n calls _ _ Hc) as (c & H1 & [[E H2]|[rest H2]]);
    fold w in H1, H2; exists c; (split; [exact H1|]).
  - left. rewrite Hact in H2. split; [exact E | exact H2].
  - right. unfold commanded. rewrite H2. split; [reflexivity | eauto].
Qed.

Lemma accelerate_run_success (self : AccelerateToVelocity.t) :
  (forall x : World,
     AccelerateToVelocity.target_velocity self
     <= calculate_velocity sqrt (actors x (AccelerateToVelocity.vehicle self))) ->
  forall (calls : list Call) (x : World),
    Forall (fun s => s = SUCCESS) (fst (run sqrt (Accelerate self) calls x)).
Proof.
  intros Hspeed. induction calls as [|[l v|s] calls IH]; intros x.
  - constructor.
  - destruct (run_tick sqrt (Accelerate self) l v calls x) as [-> _].
    constructor; [|apply IH].
    simpl. unfold AccelerateToVelocity.update.
    destruct (Qltb_spec
      (calculate_velocity sqrt
         (actors (move (AccelerateToVelocity.vehicle self) l v x)
            (AccelerateToVelocity.vehicle self)))
      (AccelerateToVelocity.target_velocity self)) as [Hlt|]; [|reflexivity].
    exfalso. pose proof (Hspeed (move (AccelerateToVelocity.vehicle self) l v x)). lra.
  - simpl. apply IH.
Qed.

(** X16. With a target velocity of 0 or less, and a [sqrt] that returns no
    negative number, AccelerateToVelocity never accelerates: every tick
    returns SUCCESS and commands the throttle 0, whatever the actor does. *)
Theorem AccelerateToVelocity_nonpositive_target
    (sqrt_nonneg : forall q : Q, 0 <= sqrt q)
    (vehicle : actor_id) (throttle_value target_velocity : Q)
    (w0 : World) (calls : list Call) (l : Location) (v : Vector3D) :
  let self := fst (AccelerateToVelocity.__init__ vehicle throttle_value target_velocity w0) in
  let w1 := snd (AccelerateToVelocity.__init__ vehicle throttle_value target_velocity w0) in
  let w := snd (run sqrt (Accelerate self) calls w1) in
  let tick := AccelerateToVelocity.update sqrt self (move vehicle l v w) in
  target_velocity <= 0 ->
  fst tick = SUCCESS
  /\ throttle (commanded (actors (snd tick) vehicle)) = 0
  /\ Forall (fun s => s = SUCCESS) (fst (run sqrt (Accelerate self) calls w1)).
Proof.
  intros self w1 w tick Ht.
  assert (Hspeed : forall x : World,
            AccelerateToVelocity.target_velocity self
            <= calculate_velocity sqrt (actors x (AccelerateToVelocity.vehicle self))).
  { intros x. unfold calculate_velocity.
    match goal with |- _ <= sqrt ?y => pose proof (sqrt_nonneg y) end.
    change (AccelerateToVelocity.target_velocity self) with target_velocity. lra. }
  destruct (run_from_init sqrt (AccelerateArgs vehicle throttle_value target_velocity) w0 calls)
    as (c & new & H1 & _). simpl in H1. fold self w1 w in H1.
  split; [|split].
  - destruct (accelerate_update_cases sqrt self (move vehicle l v w) c H1)
      as [(Hs & _)|(_ & Hs & _)]; [|exact Hs].
    exfalso. pose proof (Hspeed (move vehicle l v w)). lra.
  - destruct (accelerate_update_cases sqrt self (move vehicle l v w) c H1)
      as [(Hs & _)|(_ & _ & Hr)].
    + exfalso. pose proof (Hspeed (move vehicle l v w)). lra.
    + unfold commanded. fold tick in Hr.
      change (AccelerateToVelocity.vehicle self) with vehicle in Hr.
      rewrite Hr. reflexivity.
  - apply accelerate_run_success. exact Hspeed.
Qed.

End ActionLifecycle.

Lemma terminate_after_success_witness :
  let n := fst (action_init (StopArgs 0%nat 1) empty_world) in
  let w := snd (run Qsqrt n [Tick origin (mkVector3D 10 0 0)]
                  (snd (action_init (StopArgs 0%nat 1) empty_world))) in
  let tick := action_update Qsqrt n (move 0%nat origin at_rest w) in
  actuation n (commanded (actors (action_terminate n FAILURE (snd tick)) 0%nat)) = 0.
Proof.
  apply (terminate_after_success Qsqrt (StopArgs 0%nat 1) empty_world
           [Tick origin (mkVector3D 10 0 0)] origin at_rest FAILURE).
  vm_compute; reflexivity.
Defined.

Lemma AccelerateToVelocity_nonpositive_target_witness :
  let self := fst (AccelerateToVelocity.__init__ 0%nat 0.5 0 empty_world) in
  let w1 := snd (AccelerateToVelocity.__init__ 0%nat 0.5 0 empty_world) in
  fst (AccelerateToVelocity.update Qsqrt self (move 0%nat origin at_rest w1)) = SUCCESS.
Proof.
  apply (AccelerateToVelocity_nonpositive_target Qsqrt Qsqrt_nonneg 0%nat 0.5 0
           empty_world [] origin at_rest).
  vm_compute; discriminate.
Defined.

(* ------------------------------------------------------------------ *)
(** * The time-to-arrival computations in binary64 *)

(** ** The binary64 specification: what rounding cannot produce *)




Section Rounding.
Variables prec emax : Z.









End Rounding.

Section Subtraction.
Variables prec emax : Z.
Hypothesis prec_pos : (0 < prec)%Z.













End Subtraction.


(** ** Python's division and subtraction *)











(** ** The division guards, exact and in binary64 *)



